(** * SecureAuth 2FA: the TOTP core of [src/utils/totp.ts]

    A shallow embedding of the Base32 decoder, the validation predicate,
    the code generator and the time-remaining helper, of the handlers of
    the application component that call them and of the insight service,
    together with the properties of the specification that concern them
    and further properties read off the code.

    Modelling conventions.
    - A JavaScript string is a Rocq [string]; the embedding covers the
      ASCII fragment of JavaScript strings (code units below 128), on which
      [String.prototype.toUpperCase] maps [a..z] to [A..Z] and fixes every
      other code unit, and on which the class [\s] is TAB, LF, VT, FF, CR
      and SPACE.
    - A JavaScript number that holds an integer is a [Z]; the 32-bit
      conversions made by the bitwise operators are written out
      ([ToInt32], [ToUint32]).  Quotients such as [getTime() / 1000.0] are
      exact rationals ([Q]): on the magnitudes a clock can return
      (below 2^53) the double-precision quotient rounds and floors to the
      same integer as the exact one.
    - A [Uint8Array] is a [list Z] of fixed length; a store reduces the
      value modulo 256 and a store past the end is dropped, which is what
      stdpp's list insert does.
    - [await] is sequencing in an exception monad: a rejected promise is a
      thrown completion. *)

From Stdlib Require Import ZArith QArith Qround String Ascii List Lia Bool.
From stdpp Require Import base list.
From stdpp Require gmap strings.
Import ListNotations.

Local Open Scope Z_scope.

(** ** JavaScript primitives *)

Definition ToInt32 (x : Z) : Z := (x + 2 ^ 31) mod 2 ^ 32 - 2 ^ 31.
Definition ToUint32 (x : Z) : Z := x mod 2 ^ 32.
Definition ToUint8 (x : Z) : Z := x mod 2 ^ 8.

(** [a << b], [a >>> b], [a | b], [a & b]. *)
Definition js_shl (a b : Z) : Z :=
  ToInt32 (Z.shiftl (ToInt32 a) (ToUint32 b mod 32)).
Definition js_ushr (a b : Z) : Z :=
  Z.shiftr (ToUint32 a) (ToUint32 b mod 32).
Definition js_or (a b : Z) : Z := Z.lor (ToInt32 a) (ToInt32 b).
Definition js_and (a b : Z) : Z := Z.land (ToInt32 a) (ToInt32 b).

(** [a % b] on integers: the remainder has the sign of the dividend. *)
Definition js_rem (a b : Z) : Z := Z.rem a b.

(** [Math.round] rounds half-way cases towards plus infinity. *)
Definition Math_round (q : Q) : Z := Qfloor (q + (1 # 2)).
Definition Math_floor (q : Q) : Z := Qfloor q.

(** The integer part of a number, as the 32-bit conversions take it. *)
Definition truncate (q : Q) : Z := Z.quot (Qnum q) (Z.pos (Qden q)).

(** [new Uint8Array(n)] and [buffer[i] = v]. *)
Definition Uint8Array_new (n : Z) : list Z := replicate (Z.to_nat n) 0.
Definition Uint8Array_set (buffer : list Z) (i v : Z) : list Z :=
  if 0 <=? i then <[Z.to_nat i := ToUint8 v]> buffer else buffer.
(** [a[i]] in a numeric context: a read outside the array is [undefined],
    which the bitwise operators convert to 0. *)
Definition Uint8Array_get (a : list Z) (i : Z) : Z :=
  if 0 <=? i then default 0 (a !! Z.to_nat i) else 0.

(** ** Strings *)

Definition chars (s : string) : list ascii := list_ascii_of_string s.
Definition str_length (s : string) : Z := Z.of_nat (String.length s).

Definition code (c : ascii) : Z := Z.of_nat (nat_of_ascii c).

Definition upper_char (c : ascii) : ascii :=
  if (97 <=? code c) && (code c <=? 122)
  then ascii_of_nat (nat_of_ascii c - 32)
  else c.

Fixpoint toUpperCase (s : string) : string :=
  match s with
  | EmptyString => EmptyString
  | String c s' => String (upper_char c) (toUpperCase s')
  end.

(** The class [\s]. *)
Definition is_space (c : ascii) : bool :=
  ((9 <=? code c) && (code c <=? 13)) || (code c =? 32).

(** [s.replace(/\s/g, '')]. *)
Fixpoint remove_spaces (s : string) : string :=
  match s with
  | EmptyString => EmptyString
  | String c s' =>
      if is_space c then remove_spaces s' else String c (remove_spaces s')
  end.

Definition is_pad (c : ascii) : bool := Ascii.eqb c "="%char.

Fixpoint all_pad (s : string) : bool :=
  match s with
  | EmptyString => true
  | String c s' => is_pad c && all_pad s'
  end.

(** [s.replace(/=+$/, "")]: the leftmost position from which only [=]
    remain up to the end of the string starts the match, which is cut. *)
Fixpoint remove_trailing_pad (s : string) : string :=
  match s with
  | EmptyString => EmptyString
  | String c s' =>
      if all_pad s then EmptyString else String c (remove_trailing_pad s')
  end.

(** [s.indexOf(c)] for a one-character needle. *)
Fixpoint indexOf_from (s : string) (c : ascii) (i : Z) : Z :=
  match s with
  | EmptyString => -1
  | String d s' => if Ascii.eqb d c then i else indexOf_from s' c (i + 1)
  end.

Definition indexOf (s : string) (c : ascii) : Z := indexOf_from s c 0.

(** ** Base32 decoder *)

Definition base32Chars : string := "ABCDEFGHIJKLMNOPQRSTUVWXYZ234567".

(** The variables of the loop of [base32ToBuffer]. *)
Record decoder : Type := Decoder {
  dec_buffer : list Z;
  dec_bits : Z;
  dec_value : Z;
  dec_index : Z
}.

(** One iteration of the loop, on the character [cleanStr[i]]. *)
Definition decode_char (st : decoder) (c : ascii) : decoder :=
  let idx := indexOf base32Chars c in
  if idx =? -1 then st
  else
    let value := js_or (js_shl (dec_value st) 5) idx in
    let bits := dec_bits st + 5 in
    if 8 <=? bits then
      {| dec_buffer :=
           Uint8Array_set (dec_buffer st) (dec_index st)
             (js_and (js_ushr value (bits - 8)) 255);
         dec_bits := bits - 8;
         dec_value := value;
         dec_index := dec_index st + 1 |}
    else
      {| dec_buffer := dec_buffer st;
         dec_bits := bits;
         dec_value := value;
         dec_index := dec_index st |}.

Definition cleanStr (str : string) : string :=
  remove_spaces (remove_trailing_pad (toUpperCase str)).

Definition base32ToBuffer (str : string) : list Z :=
  let clean := cleanStr str in
  let buffer := Uint8Array_new (js_or (truncate (inject_Z (str_length clean * 5) / 8)) 0) in
  dec_buffer
    (fold_left decode_char (chars clean)
       {| dec_buffer := buffer; dec_bits := 0; dec_value := 0; dec_index := 0 |}).

(** ** Completions: a value, or a thrown exception (a rejected promise) *)

Inductive completion (A : Type) : Type :=
| Normal (a : A)
| Throw (e : string).
Arguments Normal {A} a.
Arguments Throw {A} e.

Definition bind {A B : Type} (c : completion A) (k : A -> completion B)
  : completion B :=
  match c with
  | Normal a => k a
  | Throw e => Throw e
  end.

Notation "'await' x ':=' c 'in' k" := (bind c (fun x => k))
  (at level 10, x name, c at level 200, k at level 200).

(** [try { body } catch (e) { handler }]. *)
Definition try_catch {A : Type} (body : completion A)
  (handler : string -> completion A) : completion A :=
  match body with
  | Normal a => Normal a
  | Throw e => handler e
  end.

(** ** The platform's [window.crypto.subtle]

    The two entry points the program calls, at the arguments it fixes:
    [importKey("raw", key, {name: "HMAC", hash: "SHA-1"}, false, ["sign"])]
    and [sign("HMAC", cryptoKey, data)].  Either may reject. *)
Class SubtleCrypto : Type := {
  CryptoKey : Type;
  importKey : list Z -> completion CryptoKey;
  sign : CryptoKey -> list Z -> completion (list Z)
}.

(** ** TOTP engine *)

(** [DataView.prototype.setUint32(byteOffset, value, false)]: the value
    is converted with [ToUint32] and stored big-endian. *)
Definition setUint32 (buffer : list Z) (byteOffset value : Z) : list Z :=
  let v := ToUint32 value in
  let b0 := Uint8Array_set buffer byteOffset (Z.shiftr v 24) in
  let b1 := Uint8Array_set b0 (byteOffset + 1) (Z.shiftr v 16) in
  let b2 := Uint8Array_set b1 (byteOffset + 2) (Z.shiftr v 8) in
  Uint8Array_set b2 (byteOffset + 3) v.

(** [n.toString()] for an integer: decimal digits, most significant
    first, after a minus sign when negative. *)
Definition digit_char (d : Z) : ascii := ascii_of_nat (48 + Z.to_nat d).

Fixpoint digits (fuel : nat) (n : Z) (acc : string) : string :=
  match fuel with
  | O => acc
  | S fuel' =>
      let acc' := String (digit_char (n mod 10)) acc in
      if n <? 10 then acc' else digits fuel' (n / 10) acc'
  end.

Definition Number_toString (n : Z) : string :=
  if n <? 0
  then String "-"%char (digits (S (Z.to_nat (Z.log2 (- n)))) (- n) EmptyString)
  else digits (S (Z.to_nat (Z.log2 n))) n EmptyString.

(** The first [n] characters of [fill] repeated for ever, [cur] being
    what is left of the current copy. *)
Fixpoint filler (n : nat) (cur fill : string) : string :=
  match n with
  | O => EmptyString
  | S n' =>
      match cur with
      | String c rest => String c (filler n' rest fill)
      | EmptyString =>
          match fill with
          | String c rest => String c (filler n' rest fill)
          | EmptyString => EmptyString
          end
      end
  end.

(** [s.padStart(targetLength, padString)]. *)
Definition padStart (s : string) (targetLength : Z) (padString : string)
  : string :=
  if (targetLength <=? str_length s) || (str_length padString =? 0) then s
  else
    let fillLen := targetLength - str_length s in
    String.append (filler (Z.to_nat fillLen) padString padString) s.

Section Totp.
Context `{crypto : SubtleCrypto}.

Definition hmacSha1 (key data : list Z) : completion (list Z) :=
  await cryptoKey := importKey key in
  await signature := sign cryptoKey data in
  Normal signature.

(** [now] is the clock reading, the value of [new Date().getTime()] in
    milliseconds. *)
Definition generateTOTP (now : Z) (secret : string) (windowSeconds : Z)
  : completion string :=
  try_catch
    (let keyBytes := base32ToBuffer secret in
     if Z.of_nat (length keyBytes) =? 0 then Normal "INVALID"%string
     else
       let epoch := Math_round (inject_Z now / 1000) in
       let time := Math_floor (inject_Z epoch / inject_Z windowSeconds) in
       let buffer := Uint8Array_new 8 in
       let buffer := setUint32 buffer 0 0 in
       let buffer := setUint32 buffer 4 time in
       await hmac := hmacSha1 keyBytes buffer in
       let offset :=
         js_and (Uint8Array_get hmac (Z.of_nat (length hmac) - 1)) 15 in
       let binary :=
         js_or
           (js_or
              (js_or
                 (js_shl (js_and (Uint8Array_get hmac offset) 127) 24)
                 (js_shl (js_and (Uint8Array_get hmac (offset + 1)) 255) 16))
              (js_shl (js_and (Uint8Array_get hmac (offset + 2)) 255) 8))
           (js_and (Uint8Array_get hmac (offset + 3)) 255) in
       let otp := js_rem binary 1000000 in
       Normal (padStart (Number_toString otp) 6 "0"))
    (fun e => Normal "ERROR"%string).

End Totp.

(** The local constants of [generateTOTP] as functions of its inputs:
    [epoch] and [time] at the clock reading [now], the 8-byte message
    handed to the HMAC, and [offset], [binary] and [otp] of a digest. *)
Definition epoch_of (now : Z) : Z := Math_round (inject_Z now / 1000).

Definition time_of (now windowSeconds : Z) : Z :=
  Math_floor (inject_Z (epoch_of now) / inject_Z windowSeconds).

Definition counterBuffer (now windowSeconds : Z) : list Z :=
  let buffer := Uint8Array_new 8 in
  let buffer := setUint32 buffer 0 0 in
  setUint32 buffer 4 (time_of now windowSeconds).

Definition offset_of (hmac : list Z) : Z :=
  js_and (Uint8Array_get hmac (Z.of_nat (length hmac) - 1)) 15.

Definition binary_of (hmac : list Z) : Z :=
  let offset := offset_of hmac in
  js_or
    (js_or
       (js_or
          (js_shl (js_and (Uint8Array_get hmac offset) 127) 24)
          (js_shl (js_and (Uint8Array_get hmac (offset + 1)) 255) 16))
       (js_shl (js_and (Uint8Array_get hmac (offset + 2)) 255) 8))
    (js_and (Uint8Array_get hmac (offset + 3)) 255).

Definition otp_of (hmac : list Z) : Z := js_rem (binary_of hmac) 1000000.

Definition getTimeRemaining (now : Z) (windowSeconds : Z) : Z :=
  let epoch := Math_round (inject_Z now / 1000) in
  windowSeconds - js_rem epoch windowSeconds.

(** ** Validation predicate *)

(** The class [[A-Z2-7]] under the flag [i]. *)
Definition in_class (c : ascii) : bool :=
  ((65 <=? code c) && (code c <=? 90))
  || ((97 <=? code c) && (code c <=? 122))
  || ((50 <=? code c) && (code c <=? 55)).

(** What is left of [/^[A-Z2-7]+=*$/] once a first character of the class
    is read: more of the class, then only [=] up to the end.  No [=] is in
    the class, so the greedy match is the only one. *)
Fixpoint match_tail (s : string) : bool :=
  match s with
  | EmptyString => true
  | String c s' => if in_class c then match_tail s' else all_pad s
  end.

Definition regex_test (s : string) : bool :=
  match s with
  | EmptyString => false
  | String c s' => in_class c && match_tail s'
  end.

(** [None] stands for a [null] or [undefined] argument. *)
Definition isValidBase32 (str : option string) : bool :=
  match str with
  | None => false
  | Some s =>
      if str_length s =? 0 then false
      else regex_test (remove_spaces s)
  end.

(** ** A reference HMAC-SHA-1 for the platform primitive

    Modelled from the spec: [window.crypto.subtle] is a primitive of the
    browser, not code of the program.  The specification names it
    HMAC-SHA1; to run the generator on concrete inputs it is taken as the
    standards define it, SHA-1 of FIPS 180-4 and HMAC of RFC 2104 over
    bytes. *)
Module Sha1.

Definition add32 (a b : Z) : Z := (a + b) mod 2 ^ 32.

Definition rotl32 (n x : Z) : Z :=
  Z.lor (Z.shiftl x n mod 2 ^ 32) (Z.shiftr x (32 - n)).

Definition not32 (x : Z) : Z := Z.lxor x 0xFFFFFFFF.

(** The round function and constant of round [t]. *)
Definition f (t : nat) (b c d : Z) : Z :=
  if (t <? 20)%nat then Z.lor (Z.land b c) (Z.land (not32 b) d)
  else if (t <? 40)%nat then Z.lxor (Z.lxor b c) d
  else if (t <? 60)%nat
       then Z.lor (Z.lor (Z.land b c) (Z.land b d)) (Z.land c d)
       else Z.lxor (Z.lxor b c) d.

Definition K (t : nat) : Z :=
  if (t <? 20)%nat then 0x5A827999
  else if (t <? 40)%nat then 0x6ED9EBA1
  else if (t <? 60)%nat then 0x8F1BBCDC
  else 0xCA62C1D6.

(** Big-endian words of a byte list. *)
Fixpoint words_of_bytes (bs : list Z) : list Z :=
  match bs with
  | b0 :: b1 :: b2 :: b3 :: rest =>
      (((b0 * 256 + b1) * 256 + b2) * 256 + b3) :: words_of_bytes rest
  | _ => []
  end.

Definition bytes_of_word (w : Z) : list Z :=
  [Z.shiftr w 24 mod 256; Z.shiftr w 16 mod 256; Z.shiftr w 8 mod 256;
   w mod 256].

Record regs : Type := Regs { ra : Z; rb : Z; rc : Z; rd : Z; re : Z }.

(** Round [t] on the registers and on the window [W t .. W (t+15)] of the
    message schedule. *)
Definition round (st : regs * list Z) (t : nat) : regs * list Z :=
  let '(r, w) := st in
  let wt := nth 0 w 0 in
  let temp :=
    add32 (add32 (add32 (add32 (rotl32 5 (ra r)) (f t (rb r) (rc r) (rd r)))
                    (re r)) wt) (K t) in
  let next :=
    rotl32 1 (Z.lxor (Z.lxor (Z.lxor (nth 13 w 0) (nth 8 w 0)) (nth 2 w 0))
                (nth 0 w 0)) in
  (Regs temp (ra r) (rotl32 30 (rb r)) (rc r) (rd r), tl w ++ [next]).

Definition compress (h : regs) (block : list Z) : regs :=
  let '(r, _) := fold_left round (seq 0 80) (h, block) in
  Regs (add32 (ra h) (ra r)) (add32 (rb h) (rb r)) (add32 (rc h) (rc r))
       (add32 (rd h) (rd r)) (add32 (re h) (re r)).

Fixpoint blocks (n : nat) (ws : list Z) : list (list Z) :=
  match n with
  | O => []
  | S n' => firstn 16 ws :: blocks n' (skipn 16 ws)
  end.

Definition pad (msg : list Z) : list Z :=
  let len := Z.of_nat (length msg) in
  let zeros := (55 - len) mod 64 in
  let bitlen := 8 * len in
  msg ++ [128] ++ repeat 0 (Z.to_nat zeros)
      ++ bytes_of_word (Z.shiftr bitlen 32 mod 2 ^ 32)
      ++ bytes_of_word (bitlen mod 2 ^ 32).

Definition H0 : regs :=
  Regs 0x67452301 0xEFCDAB89 0x98BADCFE 0x10325476 0xC3D2E1F0.

Definition sha1 (msg : list Z) : list Z :=
  let ws := words_of_bytes (pad msg) in
  let h := fold_left compress (blocks (length ws / 16) ws) H0 in
  bytes_of_word (ra h) ++ bytes_of_word (rb h) ++ bytes_of_word (rc h)
    ++ bytes_of_word (rd h) ++ bytes_of_word (re h).

Definition block_key (key : list Z) : list Z :=
  let k := if (64 <? length key)%nat then sha1 key else key in
  k ++ repeat 0 (64 - length k).

Definition hmac (key msg : list Z) : list Z :=
  let k := block_key key in
  let ipad := map (Z.lxor 0x36) k in
  let opad := map (Z.lxor 0x5C) k in
  sha1 (opad ++ sha1 (ipad ++ msg)).

Definition bytes_of_string (s : string) : list Z := map code (chars s).

End Sha1.

(** Modelled from the spec: the platform with a working HMAC-SHA-1.
    [importKey] rejects an empty key with a [DataError], as the Web
    Cryptography API prescribes. *)
Definition WebCrypto : SubtleCrypto :=
  {| CryptoKey := list Z;
     importKey key :=
       match key with
       | [] => Throw "DataError"
       | _ => Normal key
       end;
     sign cryptoKey data := Normal (Sha1.hmac cryptoKey data) |}.

(** Modelled from the spec: a platform without [crypto.subtle] (an
    insecure context), where the property access throws. *)
Definition NoCrypto : SubtleCrypto :=
  {| CryptoKey := unit;
     importKey key := Throw "TypeError";
     sign cryptoKey data := Throw "TypeError" |}.

(** ** More string primitives *)

Fixpoint trimStart (s : string) : string :=
  match s with
  | EmptyString => EmptyString
  | String c s' => if is_space c then trimStart s' else s
  end.

Fixpoint all_space (s : string) : bool :=
  match s with
  | EmptyString => true
  | String c s' => is_space c && all_space s'
  end.

Fixpoint trimEnd (s : string) : string :=
  match s with
  | EmptyString => EmptyString
  | String c s' => if all_space s then EmptyString else String c (trimEnd s')
  end.

(** [s.trim()]: on ASCII strings the characters trimmed are those of the
    class [\s]. *)
Definition trim (s : string) : string := trimEnd (trimStart s).

(** A string in a boolean context: true unless empty. *)
Definition truthy (s : string) : bool := negb (str_length s =? 0).

(** [s.slice(start, end)], [end] omitted when [None]. *)
Definition slice (s : string) (start : Z) (end_ : option Z) : string :=
  let len := str_length s in
  let clamp := fun i : Z => if i <? 0 then Z.max (len + i) 0 else Z.min i len in
  let from := clamp start in
  let to := match end_ with Some e => clamp e | None => len end in
  substring (Z.to_nat from) (Z.to_nat (Z.max (to - from) 0)) s.

(** ** The insight service

    [services/geminiService]: the client of the text service is created
    on first use and kept in the module variable [aiClient], which the
    functions below take and return.  The service itself is a parameter:
    the constructor of the client and [models.generateContent], whose
    answer carries a [text] that may be missing. *)
Module Gemini.

Class GoogleGenAI : Type := {
  Client : Type;
  newClient : string -> completion Client;
  generateContent : Client -> string -> string -> completion (option string)
}.

Definition model : string := "gemini-3-flash-preview".

Definition quote : string := String (ascii_of_nat 34) EmptyString.

Definition prompt (serviceName : string) : string :=
  String.append
    "Provide a concise, single-paragraph security tip (max 30 words) specifically about why enabling Two-Factor Authentication (2FA) is critical for a "
    (String.append quote
       (String.append serviceName
          (String.append quote
             " account. Focus on the specific risks associated with this type of service. Response must be in Chinese."))).

Definition noAdvice : string := "无法获取安全建议。".
Definition noConnection : string := "暂时无法连接到 AI 安全助手。".

Section WithService.
Context `{service : GoogleGenAI}.

(** [API_KEY] is the outcome of reading [process.env.API_KEY]. *)
Definition getClient (API_KEY : completion (option string))
  (aiClient : option Client) : completion Client * option Client :=
  match aiClient with
  | Some c => (Normal c, aiClient)
  | None =>
      match
        (await key := API_KEY in
         newClient
           (match key with
            | Some k => if truthy k then k else EmptyString
            | None => EmptyString
            end))
      with
      | Normal c => (Normal c, Some c)
      | Throw e => (Throw e, None)
      end
  end.

Definition getSecurityInsight (API_KEY : completion (option string))
  (aiClient : option Client) (serviceName : string)
  : completion string * option Client :=
  let '(client, aiClient') := getClient API_KEY aiClient in
  (try_catch
     (await ai := client in
      await response := generateContent ai model (prompt serviceName) in
      Normal
        (match response with
         | Some text => if truthy text then text else noAdvice
         | None => noAdvice
         end))
     (fun error => Normal noConnection),
   aiClient').

End WithService.

End Gemini.

(** A service for running the functions on concrete inputs: it makes a
    client at once and answers with the request itself. *)
Definition EchoService : Gemini.GoogleGenAI :=
  {| Gemini.Client := unit;
     Gemini.newClient key := Normal tt;
     Gemini.generateContent client model contents := Normal (Some contents) |}.

(** ** The application component

    The state of [App] and its handlers.  A handler is a function on the
    state: the value each [set...] call of the handler leaves.  What a
    handler reads from its environment ([crypto.randomUUID()],
    [Date.now()], the answer to [confirm], the clock) is an argument.
    The messages are kept as the bytes of their UTF-8 encoding.  The
    table [codes] is a finite map from ids to codes; ids are UUIDs, and
    the special property names of JavaScript objects are not modelled. *)
Module App.

Record Account : Type := {
  id : string;
  issuer : string;
  accountName : string;
  secret : string;
  addedAt : Z
}.

Record AiInsight : Type := {
  serviceName : string;
  content : string;
  isLoading : bool
}.

Record State : Type := {
  accounts : list Account;
  codes : gmap.gmap string string;
  timeLeft : Z;
  issuerInput : string;
  secretInput : string;
  isAdding : bool;
  errorMsg : string;
  insight : option AiInsight
}.

Definition setAccounts (v : list Account) (st : State) : State :=
  {| accounts := v; codes := codes st; timeLeft := timeLeft st;
     issuerInput := issuerInput st; secretInput := secretInput st;
     isAdding := isAdding st; errorMsg := errorMsg st;
     insight := insight st |}.

Definition setCodes (v : gmap.gmap string string) (st : State) : State :=
  {| accounts := accounts st; codes := v; timeLeft := timeLeft st;
     issuerInput := issuerInput st; secretInput := secretInput st;
     isAdding := isAdding st; errorMsg := errorMsg st;
     insight := insight st |}.

Definition setTimeLeft (v : Z) (st : State) : State :=
  {| accounts := accounts st; codes := codes st; timeLeft := v;
     issuerInput := issuerInput st; secretInput := secretInput st;
     isAdding := isAdding st; errorMsg := errorMsg st;
     insight := insight st |}.

Definition setIssuerInput (v : string) (st : State) : State :=
  {| accounts := accounts st; codes := codes st; timeLeft := timeLeft st;
     issuerInput := v; secretInput := secretInput st;
     isAdding := isAdding st; errorMsg := errorMsg st;
     insight := insight st |}.

Definition setSecretInput (v : string) (st : State) : State :=
  {| accounts := accounts st; codes := codes st; timeLeft := timeLeft st;
     issuerInput := issuerInput st; secretInput := v;
     isAdding := isAdding st; errorMsg := errorMsg st;
     insight := insight st |}.

Definition setIsAdding (v : bool) (st : State) : State :=
  {| accounts := accounts st; codes := codes st; timeLeft := timeLeft st;
     issuerInput := issuerInput st; secretInput := secretInput st;
     isAdding := v; errorMsg := errorMsg st;
     insight := insight st |}.

Definition setErrorMsg (v : string) (st : State) : State :=
  {| accounts := accounts st; codes := codes st; timeLeft := timeLeft st;
     issuerInput := issuerInput st; secretInput := secretInput st;
     isAdding := isAdding st; errorMsg := v;
     insight := insight st |}.

Definition setInsight (v : option AiInsight) (st : State) : State :=
  {| accounts := accounts st; codes := codes st; timeLeft := timeLeft st;
     issuerInput := issuerInput st; secretInput := secretInput st;
     isAdding := isAdding st; errorMsg := errorMsg st;
     insight := v |}.

(** [fetchInsight] up to its [await], and from the answer on. *)
Definition fetchInsight_begin (name : string) (st : State) : State :=
  setInsight
    (Some {| serviceName := name; content := EmptyString; isLoading := true |})
    st.


Definition issuerMissing : string := "请输入服务名称 (如 Google, GitHub)".
Definition secretInvalid : string := "Secret Key 格式无效 (应为 Base32 字符串)".

(** [secretClean] of [handleAddAccount]. *)
Definition secretClean (input : string) : string :=
  toUpperCase (remove_spaces (trim input)).

(** [uuid] is the value of [crypto.randomUUID()] and [dateNow] that of
    [Date.now()]. *)
Definition handleAddAccount (uuid : string) (dateNow : Z) (st : State)
  : State :=
  let st := setErrorMsg EmptyString st in
  let secretClean := secretClean (secretInput st) in
  if negb (truthy (trim (issuerInput st)))
  then setErrorMsg issuerMissing st
  else if negb (truthy secretClean)
          || negb (isValidBase32 (Some secretClean))
  then setErrorMsg secretInvalid st
  else
    let newAccount :=
      {| id := uuid;
         issuer := trim (issuerInput st);
         accountName := "User";
         secret := secretClean;
         addedAt := dateNow |} in
    let st := setAccounts (accounts st ++ [newAccount]) st in
    let st := setIssuerInput EmptyString st in
    let st := setSecretInput EmptyString st in
    let st := setIsAdding false st in
    fetchInsight_begin (issuer newAccount) st.

(** [confirmed] is the answer to the [confirm] dialogue. *)
Definition deleteAccount (target : string) (confirmed : bool) (st : State)
  : State :=
  if confirmed then
    let st' :=
      setAccounts
        (List.filter (fun a => negb (String.eqb (id a) target)) (accounts st))
        st in
    if Z.of_nat (length (accounts st)) =? 1 then setInsight None st' else st'
  else st.

Definition formatCode (code : option string) : string :=
  match code with
  | None => "--- ---"
  | Some code =>
      if negb (truthy code) || negb (str_length code =? 6) then "--- ---"
      else String.append (slice code 0 (Some 3))
             (String.append " " (slice code 3 None))
  end.

Section WithCrypto.
Context `{crypto : SubtleCrypto}.

(** The loop of [updateCodes]; [clock n] is the reading of the clock at
    the [n]-th call of [generateTOTP]. *)
Fixpoint updateCodes_loop (clock : nat -> Z) (n : nat) (accs : list Account)
  (newCodes : gmap.gmap string string)
  : completion (gmap.gmap string string) :=
  match accs with
  | [] => Normal newCodes
  | acc :: rest =>
      await code := generateTOTP (clock n) (secret acc) 30 in
      updateCodes_loop clock (S n) rest (<[id acc := code]> newCodes)
  end.

Definition updateCodes (clock : nat -> Z) (st : State) : completion State :=
  await newCodes := updateCodes_loop clock 0 (accounts st) ∅ in
  let st := setCodes newCodes st in
  Normal
    (setTimeLeft (getTimeRemaining (clock (length (accounts st))) 30) st).

(** The callback of the one-second timer, with [updateCodes] run to its
    end when it is started. *)
Definition timer_tick (clock : nat -> Z) (st : State) : completion State :=
  let st := setTimeLeft (getTimeRemaining (clock 0%nat) 30) st in
  if getTimeRemaining (clock 1%nat) 30 =? 30
  then updateCodes (fun n => clock (2 + n)%nat) st
  else Normal st.

End WithCrypto.

Section WithService.
Context `{service : Gemini.GoogleGenAI}.


End WithService.

End App.

(** * Reference definitions

    What the specification says, written independently of the program. *)

(** The digest as the specification reads it: byte [i] of a byte list. *)
Definition byte_at (digest : list Z) (i : Z) : Z := nth (Z.to_nat i) digest 0.

Definition is_bytes (l : list Z) : Prop := Forall (fun b => 0 <= b < 256) l.

Definition rfc_offset (digest : list Z) : Z := Z.land (byte_at digest 19) 0x0F.

Definition rfc_binary (digest : list Z) : Z :=
  let offset := rfc_offset digest in
  Z.lor
    (Z.lor
       (Z.lor (Z.shiftl (Z.land (byte_at digest offset) 0x7F) 24)
              (Z.shiftl (byte_at digest (offset + 1)) 16))
       (Z.shiftl (byte_at digest (offset + 2)) 8))
    (byte_at digest (offset + 3)).

(** A string read back as a decimal numeral. *)
Definition is_digit (c : ascii) : bool := (48 <=? code c) && (code c <=? 57).

Fixpoint all_digits (s : string) : bool :=
  match s with
  | EmptyString => true
  | String c s' => is_digit c && all_digits s'
  end.

Fixpoint decimal_value_from (acc : Z) (s : string) : Z :=
  match s with
  | EmptyString => acc
  | String c s' => decimal_value_from (acc * 10 + (code c - 48)) s'
  end.

Definition decimal_value (s : string) : Z := decimal_value_from 0 s.

(** A six-digit code. *)
Definition is_code (s : string) : Prop :=
  String.length s = 6%nat /\ all_digits s = true.

Fixpoint zeros (n : nat) : string :=
  match n with
  | O => EmptyString
  | S n' => String "0"%char (zeros n')
  end.

(** The big-endian representation of [x] on [n] bytes. *)
Fixpoint be_bytes (n : nat) (x : Z) : list Z :=
  match n with
  | O => []
  | S n' => (x / 256 ^ Z.of_nat n') mod 256 :: be_bytes n' x
  end.

(** The seed of RFC 6238, Appendix B, for SHA-1. *)
Definition rfc6238_secret : string := "GEZDGNBVGY3TQOJQGEZDGNBVGY3TQOJQ".
Definition rfc6238_seed : list Z := Sha1.bytes_of_string "12345678901234567890".

(** ** The reference lenient decoder

    RFC 4648 Base32 with the leniency of the specification: normalise,
    then read the alphabet characters in order, skipping every other
    character, through an unbounded bit accumulator. *)
Definition alphabet_position (c : ascii) : option Z :=
  if (65 <=? code c) && (code c <=? 90) then Some (code c - 65)
  else if (50 <=? code c) && (code c <=? 55) then Some (code c - 50 + 26)
  else None.

Definition normalize (s : string) : string :=
  remove_trailing_pad (remove_spaces (toUpperCase s)).

Fixpoint decode_loop (cs : list ascii) (acc bits : Z) : list Z :=
  match cs with
  | [] => []
  | c :: cs' =>
      match alphabet_position c with
      | None => decode_loop cs' acc bits
      | Some v =>
          let acc' := Z.lor (Z.shiftl acc 5) v in
          let bits' := bits + 5 in
          if 8 <=? bits'
          then Z.land (Z.shiftr acc' (bits' - 8)) 255
               :: decode_loop cs' acc' (bits' - 8)
          else decode_loop cs' acc' bits'
      end
  end.

Definition base32_decode (s : string) : list Z :=
  decode_loop (chars (normalize s)) 0 0.

Definition is_alphabet (c : ascii) : bool :=
  match alphabet_position c with
  | Some _ => true
  | None => false
  end.

(** Number of alphabet characters of a string. *)
Definition valid_count (s : string) : nat :=
  length (List.filter is_alphabet (chars s)).

(** The 32-bit [value] of the loop and the unbounded accumulator agree
    on their low 32 bits. *)
Definition agree (value acc : Z) : Prop := value mod 2 ^ 32 = acc mod 2 ^ 32.

(** Stores of [bytes] at [i], [i + 1], ... in turn. *)
Fixpoint write_from (buffer : list Z) (i : nat) (bytes : list Z) : list Z :=
  match bytes with
  | [] => buffer
  | b :: bs => write_from (<[i := b]> buffer) (S i) bs
  end.

(** A Base32 secret in clean form: one or more characters of [A-Z] and
    [2-7], then [=] padding only. *)
Definition clean_secret (s : string) : Prop :=
  exists body pad : string,
    s = String.append body pad /\ body <> EmptyString
    /\ forallb is_alphabet (chars body) = true /\ all_pad pad = true.


(** * Properties *)

(** A fact about one character, checked on each of the 256. *)
Ltac each_char c := destruct c as [[] [] [] [] [] [] [] []]; vm_compute.

(** ** Evaluations *)

Example base32_hello : base32ToBuffer "JBSWY3DP" = [72; 101; 108; 108; 111].
Proof. vm_compute. reflexivity. Qed.

Example totp_invalid_empty `{SubtleCrypto} :
  generateTOTP 0 "" 30 = Normal "INVALID"%string.
Proof. reflexivity. Qed.

Example pad_42 : padStart (Number_toString 42) 6 "0" = "000042"%string.
Proof. reflexivity. Qed.

Example valid_1 : isValidBase32 (Some "jbswy3dp==  "%string) = true.
Proof. reflexivity. Qed.

Example time_remaining_30 : getTimeRemaining 30000 30 = 30.
Proof. reflexivity. Qed.

(** FIPS 180-4, example "abc". *)
Example sha1_abc :
  Sha1.sha1 (Sha1.bytes_of_string "abc") =
  [0xA9; 0x99; 0x3E; 0x36; 0x47; 0x06; 0x81; 0x6A; 0xBA; 0x3E;
   0x25; 0x71; 0x78; 0x50; 0xC2; 0x6C; 0x9C; 0xD0; 0xD8; 0x9D].
Proof. vm_compute. reflexivity. Qed.

(** RFC 2202, HMAC-SHA-1 test case 2. *)
Example hmac_rfc2202_2 :
  Sha1.hmac (Sha1.bytes_of_string "Jefe")
    (Sha1.bytes_of_string "what do ya want for nothing?") =
  [0xEF; 0xFC; 0xDF; 0x6A; 0xE5; 0xEB; 0x2F; 0xA2; 0xD2; 0x74;
   0x16; 0xD5; 0xF1; 0x84; 0xDF; 0x9C; 0x25; 0x9A; 0x7C; 0x79].
Proof. vm_compute. reflexivity. Qed.

Example rfc6238_59 :
  @generateTOTP WebCrypto 59000 "GEZDGNBVGY3TQOJQGEZDGNBVGY3TQOJQ" 30
  = Normal "287082"%string.
Proof. vm_compute. reflexivity. Qed.

(** ** 32-bit arithmetic *)

Lemma ToInt32_small (x : Z) : - 2 ^ 31 <= x < 2 ^ 31 -> ToInt32 x = x.
Proof.
  intros Hx. unfold ToInt32.
  rewrite Z.mod_small; lia.
Qed.

Lemma ToInt32_range (x : Z) : - 2 ^ 31 <= ToInt32 x < 2 ^ 31.
Proof.
  unfold ToInt32.
  pose proof (Z.mod_pos_bound (x + 2 ^ 31) (2 ^ 32) ltac:(lia)). lia.
Qed.

Lemma ToInt32_mod (x k : Z) : 0 <= k <= 32 -> ToInt32 x mod 2 ^ k = x mod 2 ^ k.
Proof.
  intros Hk. unfold ToInt32.
  assert (H32 : 2 ^ 32 = 2 ^ (32 - k) * 2 ^ k).
  { rewrite <- Z.pow_add_r by lia. f_equal. lia. }
  assert (Hk0 : 0 < 2 ^ k) by (apply Z.pow_pos_nonneg; lia).
  rewrite (Z.mod_eq (x + 2 ^ 31) (2 ^ 32)) by lia.
  set (q := (x + 2 ^ 31) / 2 ^ 32).
  replace (x + 2 ^ 31 - 2 ^ 32 * q - 2 ^ 31)
    with (x + (- q * 2 ^ (32 - k)) * 2 ^ k)
    by (rewrite (Z.mul_comm (2 ^ 32) q), H32; ring).
  apply Z.mod_add. lia.
Qed.

Lemma lor_range (n a b : Z) :
  0 <= n -> 0 <= a < 2 ^ n -> 0 <= b < 2 ^ n -> 0 <= Z.lor a b < 2 ^ n.
Proof.
  intros Hn Ha Hb. split.
  - apply Z.lor_nonneg. lia.
  - destruct (Z.eq_dec (Z.lor a b) 0) as [-> | Hne]; [lia|].
    apply Z.log2_lt_pow2.
    + pose proof (proj2 (Z.lor_nonneg a b) (conj (proj1 Ha) (proj1 Hb))). lia.
    + rewrite Z.log2_lor by lia.
      destruct (Z.eq_dec a 0) as [-> | Ha0], (Z.eq_dec b 0) as [-> | Hb0];
        try (rewrite Z.lor_0_l in Hne); try (rewrite Z.lor_0_r in Hne);
        try lia.
      * change (Z.log2 0) with 0. rewrite Z.max_r by apply Z.log2_nonneg.
        apply Z.log2_lt_pow2; lia.
      * change (Z.log2 0) with 0. rewrite Z.max_l by apply Z.log2_nonneg.
        apply Z.log2_lt_pow2; lia.
      * apply Z.max_lub_lt; apply Z.log2_lt_pow2; lia.
Qed.

Lemma js_and_ones (a k : Z) :
  0 <= k < 31 -> js_and a (Z.ones k) = a mod 2 ^ k.
Proof.
  intros Hk. unfold js_and.
  assert (Hones : 0 <= Z.ones k < 2 ^ 31).
  { rewrite Z.ones_equiv. split.
    - pose proof (Z.pow_pos_nonneg 2 k). lia.
    - assert (2 ^ k <= 2 ^ 30) by (apply Z.pow_le_mono_r; lia). lia. }
  rewrite (ToInt32_small (Z.ones k)) by lia.
  rewrite Z.land_ones by lia.
  apply ToInt32_mod. lia.
Qed.

Lemma js_shl_small (a k : Z) :
  0 <= k < 32 -> 0 <= a < 2 ^ (31 - k) -> js_shl a k = Z.shiftl a k.
Proof.
  intros Hk Ha. unfold js_shl, ToUint32.
  assert (Hp : 2 ^ (31 - k) * 2 ^ k = 2 ^ 31).
  { rewrite <- Z.pow_add_r by lia. f_equal. lia. }
  assert (0 < 2 ^ k) by (apply Z.pow_pos_nonneg; lia).
  assert (2 ^ (31 - k) <= 2 ^ 31) by (apply Z.pow_le_mono_r; lia).
  rewrite (Z.mod_small k (2 ^ 32)) by lia.
  rewrite (Z.mod_small k 32) by lia.
  rewrite (ToInt32_small a) by lia.
  rewrite Z.shiftl_mul_pow2 by lia.
  apply ToInt32_small. nia.
Qed.

Lemma js_or_small (a b : Z) :
  0 <= a < 2 ^ 31 -> 0 <= b < 2 ^ 31 -> js_or a b = Z.lor a b.
Proof.
  intros Ha Hb. unfold js_or. rewrite !ToInt32_small by lia. reflexivity.
Qed.

Lemma shiftl_range (a k n : Z) :
  0 <= k -> 0 <= n -> 0 <= a < 2 ^ n -> 0 <= Z.shiftl a k < 2 ^ (n + k).
Proof.
  intros Hk Hn Ha. rewrite Z.shiftl_mul_pow2 by lia.
  rewrite Z.pow_add_r by lia.
  assert (0 < 2 ^ k) by (apply Z.pow_pos_nonneg; lia). nia.
Qed.

(** ** Dynamic truncation *)

Lemma Uint8Array_get_nth (a : list Z) (i : Z) :
  0 <= i -> Uint8Array_get a i = byte_at a i.
Proof.
  intros Hi. unfold Uint8Array_get, byte_at.
  destruct (0 <=? i) eqn:E; [|lia].
  generalize (Z.to_nat i). clear. intros n. revert a.
  induction n as [|n IH]; intros [|x a]; simpl; auto.
Qed.

Lemma byte_at_range (a : list Z) (i : Z) :
  is_bytes a -> 0 <= byte_at a i < 256.
Proof.
  intros Ha. unfold byte_at.
  destruct (nth_in_or_default (Z.to_nat i) a 0) as [Hin | Hd]; [|rewrite Hd; lia].
  unfold is_bytes in Ha. rewrite List.Forall_forall in Ha. apply Ha, Hin.
Qed.

Lemma offset_of_range (hmac : list Z) : 0 <= offset_of hmac <= 15.
Proof.
  unfold offset_of.
  rewrite (js_and_ones _ 4 ltac:(lia) : js_and _ 15 = _).
  pose proof (Z.mod_pos_bound (Uint8Array_get hmac (Z.of_nat (length hmac) - 1))
                (2 ^ 4) ltac:(lia)).
  lia.
Qed.

Lemma binary_of_range (hmac : list Z) : 0 <= binary_of hmac < 2 ^ 31.
Proof.
  unfold binary_of.
  set (o := offset_of hmac).
  change 127 with (Z.ones 7). change 255 with (Z.ones 8).
  rewrite !js_and_ones by lia.
  set (x0 := Uint8Array_get hmac o mod 2 ^ 7).
  set (x1 := Uint8Array_get hmac (o + 1) mod 2 ^ 8).
  set (x2 := Uint8Array_get hmac (o + 2) mod 2 ^ 8).
  set (x3 := Uint8Array_get hmac (o + 3) mod 2 ^ 8).
  assert (H0 : 0 <= x0 < 2 ^ 7) by (apply Z.mod_pos_bound; lia).
  assert (H1 : 0 <= x1 < 2 ^ 8) by (apply Z.mod_pos_bound; lia).
  assert (H2 : 0 <= x2 < 2 ^ 8) by (apply Z.mod_pos_bound; lia).
  assert (H3 : 0 <= x3 < 2 ^ 8) by (apply Z.mod_pos_bound; lia).
  rewrite (js_shl_small x0 24), (js_shl_small x1 16), (js_shl_small x2 8);
    try (simpl; lia).
  pose proof (shiftl_range x0 24 7 ltac:(lia) ltac:(lia) H0) as S0.
  pose proof (shiftl_range x1 16 8 ltac:(lia) ltac:(lia) H1) as S1.
  pose proof (shiftl_range x2 8 8 ltac:(lia) ltac:(lia) H2) as S2.
  simpl Z.add in S0, S1, S2.
  assert (L1 : 0 <= Z.lor (Z.shiftl x0 24) (Z.shiftl x1 16) < 2 ^ 31).
  { apply lor_range; lia. }
  rewrite (js_or_small (Z.shiftl x0 24)) by lia.
  assert (L2 : 0 <= Z.lor (Z.lor (Z.shiftl x0 24) (Z.shiftl x1 16))
                       (Z.shiftl x2 8) < 2 ^ 31).
  { apply lor_range; lia. }
  rewrite (js_or_small (Z.lor (Z.shiftl x0 24) (Z.shiftl x1 16))) by lia.
  rewrite js_or_small by lia.
  apply lor_range; lia.
Qed.

Lemma offset_of_rfc (digest : list Z) :
  length digest = 20%nat -> offset_of digest = rfc_offset digest.
Proof.
  intros Hlen. unfold offset_of, rfc_offset. rewrite Hlen.
  change (Z.of_nat 20 - 1) with 19.
  rewrite Uint8Array_get_nth by lia.
  change 15 with (Z.ones 4). rewrite js_and_ones by lia.
  rewrite Z.land_ones by lia. reflexivity.
Qed.

Lemma binary_of_rfc (digest : list Z) :
  length digest = 20%nat -> is_bytes digest ->
  binary_of digest = rfc_binary digest.
Proof.
  intros Hlen Hb. unfold binary_of, rfc_binary.
  rewrite (offset_of_rfc digest Hlen).
  set (o := rfc_offset digest).
  assert (Ho : 0 <= o <= 15).
  { unfold o. rewrite <- (offset_of_rfc digest Hlen). apply offset_of_range. }
  rewrite !Uint8Array_get_nth by lia.
  pose proof (byte_at_range digest o Hb) as B0.
  pose proof (byte_at_range digest (o + 1) Hb) as B1.
  pose proof (byte_at_range digest (o + 2) Hb) as B2.
  pose proof (byte_at_range digest (o + 3) Hb) as B3.
  change 127 with (Z.ones 7). change 255 with (Z.ones 8).
  rewrite !js_and_ones by lia.
  rewrite Z.land_ones by lia.
  rewrite (Z.mod_small (byte_at digest (o + 1))) by (simpl; lia).
  rewrite (Z.mod_small (byte_at digest (o + 2))) by (simpl; lia).
  rewrite (Z.mod_small (byte_at digest (o + 3))) by (simpl; lia).
  set (x0 := byte_at digest o mod 2 ^ 7).
  assert (H0 : 0 <= x0 < 2 ^ 7) by (apply Z.mod_pos_bound; lia).
  rewrite (js_shl_small x0 24), (js_shl_small _ 16), (js_shl_small _ 8);
    try (simpl; lia).
  pose proof (shiftl_range x0 24 7 ltac:(lia) ltac:(lia) H0) as S0.
  pose proof (shiftl_range _ 16 8 ltac:(lia) ltac:(lia) B1) as S1.
  pose proof (shiftl_range _ 8 8 ltac:(lia) ltac:(lia) B2) as S2.
  simpl Z.add in S0, S1, S2.
  assert (L1 : 0 <= Z.lor (Z.shiftl x0 24) (Z.shiftl (byte_at digest (o + 1)) 16)
                  < 2 ^ 31) by (apply lor_range; lia).
  rewrite (js_or_small (Z.shiftl x0 24)) by lia.
  assert (L2 : 0 <= Z.lor (Z.lor (Z.shiftl x0 24)
                                 (Z.shiftl (byte_at digest (o + 1)) 16))
                       (Z.shiftl (byte_at digest (o + 2)) 8) < 2 ^ 31)
    by (apply lor_range; lia).
  rewrite (js_or_small (Z.lor (Z.shiftl x0 24)
                              (Z.shiftl (byte_at digest (o + 1)) 16))) by lia.
  rewrite js_or_small by lia.
  reflexivity.
Qed.

Lemma otp_of_range (hmac : list Z) : 0 <= otp_of hmac < 1000000.
Proof.
  unfold otp_of, js_rem.
  pose proof (binary_of_range hmac) as Hb.
  rewrite Z.rem_mod_nonneg by lia.
  apply Z.mod_pos_bound. lia.
Qed.

(** ** Decimal formatting *)

Lemma code_digit_char (d : Z) : 0 <= d < 10 -> code (digit_char d) = 48 + d.
Proof.
  intros Hd. unfold code, digit_char.
  rewrite nat_ascii_embedding by lia. lia.
Qed.

Lemma is_digit_digit_char (d : Z) : 0 <= d < 10 -> is_digit (digit_char d) = true.
Proof.
  intros Hd. unfold is_digit. rewrite code_digit_char by lia.
  apply andb_true_intro; split; apply Z.leb_le; lia.
Qed.

Lemma digits_all_digits (fuel : nat) : forall (n : Z) (acc : string),
  0 <= n -> all_digits acc = true -> all_digits (digits fuel n acc) = true.
Proof.
  induction fuel as [|fuel IH]; intros n acc Hn Hacc; cbn [digits];
    [exact Hacc|].
  assert (Hd : all_digits (String (digit_char (n mod 10)) acc) = true).
  { cbn [all_digits]. rewrite is_digit_digit_char, Hacc; [reflexivity|].
    apply Z.mod_pos_bound; lia. }
  destruct (n <? 10); [exact Hd|].
  apply IH; [apply Z.div_pos; lia | exact Hd].
Qed.

Lemma digits_value (fuel : nat) : forall (n : Z) (acc : string),
  0 <= n < 10 ^ Z.of_nat fuel ->
  decimal_value_from 0 (digits fuel n acc) = decimal_value_from n acc.
Proof.
  induction fuel as [|fuel IH]; intros n acc Hn.
  - change (10 ^ Z.of_nat 0) with 1 in Hn. replace n with 0 by lia.
    reflexivity.
  - cbn [digits]. destruct (n <? 10) eqn:E.
    + apply Z.ltb_lt in E. cbn [decimal_value_from].
      rewrite code_digit_char by (apply Z.mod_pos_bound; lia).
      rewrite Z.mod_small by lia. f_equal. lia.
    + apply Z.ltb_ge in E. rewrite IH.
      * cbn [decimal_value_from].
        rewrite code_digit_char by (apply Z.mod_pos_bound; lia).
        f_equal. pose proof (Z.div_mod n 10 ltac:(lia)). lia.
      * rewrite Nat2Z.inj_succ, Z.pow_succ_r in Hn by lia.
        split; [apply Z.div_pos; lia|].
        apply Z.div_lt_upper_bound; lia.
Qed.

Lemma digits_length (fuel : nat) : forall (k : nat) (n : Z) (acc : string),
  (1 <= k)%nat -> 0 <= n < 10 ^ Z.of_nat k ->
  (String.length (digits fuel n acc) <= String.length acc + k)%nat.
Proof.
  induction fuel as [|fuel IH]; intros k n acc Hk Hn; cbn [digits]; [lia|].
  destruct (n <? 10) eqn:E; cbn [String.length]; [lia|].
  apply Z.ltb_ge in E.
  destruct k as [|[|k]]; [lia | change (10 ^ Z.of_nat 1) with 10 in Hn; lia |].
  specialize (IH (S k) (n / 10) (String (digit_char (n mod 10)) acc)).
  cbn [String.length] in IH.
  assert (Hdiv : 0 <= n / 10 < 10 ^ Z.of_nat (S k)).
  { rewrite (Nat2Z.inj_succ (S k)), Z.pow_succ_r in Hn by lia.
    split; [apply Z.div_pos; lia|].
    apply Z.div_lt_upper_bound; lia. }
  specialize (IH ltac:(lia) Hdiv). lia.
Qed.

Lemma toString_fuel (n : Z) : 0 <= n -> n < 10 ^ Z.of_nat (S (Z.to_nat (Z.log2 n))).
Proof.
  intros Hn.
  rewrite Nat2Z.inj_succ, Z2Nat.id by apply Z.log2_nonneg.
  destruct (Z.eq_dec n 0) as [-> | Hne]; [reflexivity|].
  pose proof (Z.log2_spec n ltac:(lia)) as [_ Hlt].
  pose proof (Z.log2_nonneg n).
  assert (2 ^ Z.succ (Z.log2 n) <= 10 ^ Z.succ (Z.log2 n))
    by (apply Z.pow_le_mono_l; lia).
  lia.
Qed.

Lemma filler_zeros (n : nat) : forall cur : string,
  cur = "0"%string \/ cur = EmptyString ->
  filler n cur "0" = zeros n.
Proof.
  induction n as [|n IH]; intros cur [-> | ->]; simpl; try reflexivity;
    f_equal; apply IH; auto.
Qed.

Lemma length_append (s t : string) :
  String.length (String.append s t) = (String.length s + String.length t)%nat.
Proof.
  induction s as [|c s IH]; [reflexivity|].
  change (S (String.length (String.append s t))
          = S (String.length s + String.length t)).
  rewrite IH. reflexivity.
Qed.

Lemma length_zeros (n : nat) : String.length (zeros n) = n.
Proof.
  induction n as [|n IH]; [reflexivity|].
  cbn [zeros String.length]. rewrite IH. reflexivity.
Qed.

Lemma all_digits_zeros (n : nat) (s : string) :
  all_digits (String.append (zeros n) s) = all_digits s.
Proof. induction n; simpl; auto. Qed.

Lemma decimal_value_zeros (n : nat) (s : string) :
  decimal_value_from 0 (String.append (zeros n) s) = decimal_value_from 0 s.
Proof. induction n; simpl; auto. Qed.

Lemma padStart_zeros (s : string) :
  (String.length s <= 6)%nat ->
  padStart s 6 "0" = String.append (zeros (6 - String.length s)) s.
Proof.
  intros Hs. unfold padStart, str_length.
  destruct (6 <=? Z.of_nat (String.length s)) eqn:E.
  - apply Z.leb_le in E. replace (6 - String.length s)%nat with 0%nat by lia.
    reflexivity.
  - apply Z.leb_gt in E. cbn [orb String.length Z.of_nat Z.eqb Pos.of_succ_nat].
    rewrite filler_zeros by auto.
    do 2 f_equal. lia.
Qed.

(** The string the generator returns for a truncated value below 10^6 is
    that value written with six decimal digits. *)
Lemma code_string_spec (otp : Z) :
  0 <= otp < 1000000 ->
  is_code (padStart (Number_toString otp) 6 "0")
  /\ decimal_value (padStart (Number_toString otp) 6 "0") = otp.
Proof.
  intros Hotp. unfold Number_toString.
  destruct (otp <? 0) eqn:E; [apply Z.ltb_lt in E; lia|].
  set (fuel := S (Z.to_nat (Z.log2 otp))).
  assert (Hlen : (String.length (digits fuel otp EmptyString) <= 6)%nat).
  { apply (digits_length fuel 6 otp EmptyString); [lia|].
    change (10 ^ Z.of_nat 6) with 1000000. lia. }
  rewrite padStart_zeros by exact Hlen.
  unfold is_code, decimal_value.
  rewrite length_append, length_zeros, all_digits_zeros, decimal_value_zeros.
  repeat split.
  - lia.
  - apply digits_all_digits; [lia | reflexivity].
  - rewrite digits_value; [reflexivity|].
    split; [lia | apply toString_fuel; lia].
Qed.

(** ** Clock and counter *)

Lemma epoch_of_div (now : Z) : epoch_of now = (now + 500) / 1000.
Proof.
  unfold epoch_of, Math_round. rewrite Zdiv_Qdiv.
  apply Qfloor_comp. rewrite inject_Z_plus. field.
Qed.

Lemma time_of_div (now windowSeconds : Z) :
  time_of now windowSeconds = epoch_of now / windowSeconds.
Proof. unfold time_of, Math_floor. symmetry. apply Zdiv_Qdiv. Qed.

Lemma counterBuffer_low (now windowSeconds : Z) :
  counterBuffer now windowSeconds =
  [0; 0; 0; 0] ++ be_bytes 4 (time_of now windowSeconds mod 2 ^ 32).
Proof.
  unfold counterBuffer. generalize (time_of now windowSeconds). intros t.
  unfold setUint32, ToUint32. set (v := t mod 2 ^ 32).
  cbv [Uint8Array_new Uint8Array_set Z.leb Z.compare Z.add Z.to_nat
       Pos.to_nat Pos.iter_op Init.Nat.add replicate app be_bytes ToUint8].
  rewrite !Z.shiftr_div_pow2 by lia.
  rewrite (Z.div_1_r v : v / 256 ^ Z.of_nat 0 = v).
  reflexivity.
Qed.

Lemma counterBuffer_be64 (now windowSeconds : Z) :
  0 <= time_of now windowSeconds < 2 ^ 32 ->
  counterBuffer now windowSeconds = be_bytes 8 (time_of now windowSeconds).
Proof.
  intros Ht. rewrite counterBuffer_low.
  set (t := time_of now windowSeconds) in *.
  rewrite (Z.mod_small t) by lia.
  cbn [be_bytes app].
  assert (Hhi : forall k : nat, (4 <= k)%nat -> (t / 256 ^ Z.of_nat k) mod 256 = 0).
  { intros k Hk. rewrite Z.div_small; [reflexivity|].
    assert (256 ^ 4 <= 256 ^ Z.of_nat k) by (apply Z.pow_le_mono_r; lia).
    lia. }
  rewrite (Hhi 7%nat), (Hhi 6%nat), (Hhi 5%nat), (Hhi 4%nat) by lia.
  reflexivity.
Qed.

Lemma is_bytes_check (l : list Z) :
  forallb (fun b => (0 <=? b) && (b <? 256)) l = true -> is_bytes l.
Proof.
  intros H. unfold is_bytes. apply List.Forall_forall. intros b Hb.
  rewrite forallb_forall in H. specialize (H b Hb).
  apply andb_prop in H as [H1 H2].
  apply Z.leb_le in H1. apply Z.ltb_lt in H2. lia.
Qed.

(** ** The generator *)

(** The generator in terms of its local constants. *)
Lemma generateTOTP_steps (crypto : SubtleCrypto) (now : Z) (secret : string)
  (windowSeconds : Z) :
  generateTOTP now secret windowSeconds
  = try_catch
      (let keyBytes := base32ToBuffer secret in
       if Z.of_nat (length keyBytes) =? 0 then Normal "INVALID"%string
       else
         await hmac := hmacSha1 keyBytes (counterBuffer now windowSeconds) in
         Normal (padStart (Number_toString (otp_of hmac)) 6 "0"))
      (fun e => Normal "ERROR"%string).
Proof.
  unfold generateTOTP, counterBuffer, otp_of, binary_of, offset_of, time_of,
    epoch_of.
  cbv zeta. reflexivity.
Qed.

Lemma generateTOTP_empty_key (crypto : SubtleCrypto) (now : Z)
  (secret : string) (windowSeconds : Z) :
  base32ToBuffer secret = [] ->
  generateTOTP now secret windowSeconds = Normal "INVALID"%string.
Proof. intros H. rewrite generateTOTP_steps, H. reflexivity. Qed.

Lemma generateTOTP_digest (crypto : SubtleCrypto) (now : Z)
  (secret : string) (windowSeconds : Z) (digest : list Z) :
  base32ToBuffer secret <> [] ->
  hmacSha1 (base32ToBuffer secret) (counterBuffer now windowSeconds)
  = Normal digest ->
  generateTOTP now secret windowSeconds
  = Normal (padStart (Number_toString (otp_of digest)) 6 "0").
Proof.
  intros Hkey Hmac. rewrite generateTOTP_steps.
  destruct (base32ToBuffer secret) as [|b key] eqn:E; [congruence|].
  cbn [length]. rewrite Hmac. reflexivity.
Qed.

Lemma generateTOTP_hash_failure (crypto : SubtleCrypto) (now : Z)
  (secret : string) (windowSeconds : Z) (e : string) :
  base32ToBuffer secret <> [] ->
  hmacSha1 (base32ToBuffer secret) (counterBuffer now windowSeconds)
  = Throw e ->
  generateTOTP now secret windowSeconds = Normal "ERROR"%string.
Proof.
  intros Hkey Hmac. rewrite generateTOTP_steps.
  destruct (base32ToBuffer secret) as [|b key] eqn:E; [congruence|].
  cbn [length]. rewrite Hmac. reflexivity.
Qed.

Lemma is_code_not_INVALID : ~ is_code "INVALID".
Proof. intros [H _]. discriminate H. Qed.

Lemma is_code_not_ERROR : ~ is_code "ERROR".
Proof. intros [H _]. discriminate H. Qed.

(** C2. For every 20-byte digest the HMAC returns, the generator takes
    [offset = digest[19] & 0x0F], combines the four bytes at [offset]
    big-endian with the top bit masked off into a nonnegative 31-bit
    [binary], and returns [binary mod 1000000] written in decimal and
    left-padded with zeros to exactly six characters. *)
Theorem generateTOTP_dynamic_truncation (crypto : SubtleCrypto) (now : Z)
  (secret : string) (windowSeconds : Z) (digest : list Z) :
  base32ToBuffer secret <> [] ->
  hmacSha1 (base32ToBuffer secret) (counterBuffer now windowSeconds)
  = Normal digest ->
  length digest = 20%nat ->
  is_bytes digest ->
  let otp := rfc_binary digest mod 1000000 in
  0 <= rfc_binary digest < 2 ^ 31
  /\ generateTOTP now secret windowSeconds
     = Normal (padStart (Number_toString otp) 6 "0")
  /\ is_code (padStart (Number_toString otp) 6 "0")
  /\ decimal_value (padStart (Number_toString otp) 6 "0") = otp.
Proof.
  intros Hkey Hmac Hlen Hbytes otp.
  pose proof (binary_of_range digest) as Hrange.
  pose proof (otp_of_range digest) as Hotp.
  assert (Heq : otp_of digest = otp).
  { unfold otp_of, js_rem, otp. rewrite Z.rem_mod_nonneg by lia.
    rewrite binary_of_rfc by assumption. reflexivity. }
  rewrite Heq in Hotp.
  rewrite <- (binary_of_rfc digest Hlen Hbytes).
  split; [exact Hrange|].
  split.
  - rewrite <- Heq. apply generateTOTP_digest; assumption.
  - apply code_string_spec. exact Hotp.
Qed.

Lemma generateTOTP_dynamic_truncation_witness :
  @generateTOTP WebCrypto 59000 "GEZDGNBVGY3TQOJQGEZDGNBVGY3TQOJQ" 30
  = Normal "287082"%string.
Proof.
  pose (digest :=
          Sha1.hmac (base32ToBuffer "GEZDGNBVGY3TQOJQGEZDGNBVGY3TQOJQ")
            (counterBuffer 59000 30)).
  assert (H1 : base32ToBuffer "GEZDGNBVGY3TQOJQGEZDGNBVGY3TQOJQ" <> [])
    by (vm_compute; discriminate).
  assert (H2 : @hmacSha1 WebCrypto
                 (base32ToBuffer "GEZDGNBVGY3TQOJQGEZDGNBVGY3TQOJQ")
                 (counterBuffer 59000 30) = Normal digest)
    by (vm_compute; reflexivity).
  assert (H3 : length digest = 20%nat) by (vm_compute; reflexivity).
  assert (H4 : is_bytes digest)
    by (apply is_bytes_check; vm_compute; reflexivity).
  destruct (generateTOTP_dynamic_truncation WebCrypto 59000
              "GEZDGNBVGY3TQOJQGEZDGNBVGY3TQOJQ" 30 digest H1 H2 H3 H4)
    as (_ & Hgen & _).
  rewrite Hgen. vm_compute. reflexivity.
Defined.

(** C10. For every 20-byte digest the truncation reads inside the digest:
    the offset lies in [0, 15], the four bytes at [offset .. offset + 3]
    exist, and the combined value is nonnegative and below 2^31. *)
Theorem truncation_in_bounds (hmac : list Z) :
  length hmac = 20%nat ->
  0 <= offset_of hmac <= 15
  /\ (forall k : Z, 0 <= k <= 3 ->
        is_Some (hmac !! Z.to_nat (offset_of hmac + k)))
  /\ is_Some (hmac !! Z.to_nat (Z.of_nat (length hmac) - 1))
  /\ 0 <= binary_of hmac < 2 ^ 31.
Proof.
  intros Hlen. pose proof (offset_of_range hmac) as Ho.
  split; [exact Ho|]. split; [|split].
  - intros k Hk. apply lookup_lt_is_Some. rewrite Hlen. lia.
  - apply lookup_lt_is_Some. rewrite Hlen. lia.
  - apply binary_of_range.
Qed.

Lemma truncation_in_bounds_witness :
  0 <= offset_of (replicate 20 255) <= 15
  /\ 0 <= binary_of (replicate 20 255) < 2 ^ 31.
Proof.
  destruct (truncation_in_bounds (replicate 20 255) eq_refl)
    as (Ho & _ & _ & Hb).
  split; [exact Ho | exact Hb].
Defined.

(** C3. The generator returns ["INVALID"] exactly when the secret decodes
    to no byte (so for [""] and ["===="]), returns ["ERROR"] when the HMAC
    fails, always completes normally, and its three kinds of result, a
    six-digit code, ["INVALID"] and ["ERROR"], are pairwise distinct. *)
Theorem generateTOTP_outcomes (crypto : SubtleCrypto) (now : Z)
  (secret : string) (windowSeconds : Z) :
  (generateTOTP now secret windowSeconds = Normal "INVALID"%string
   <-> base32ToBuffer secret = [])
  /\ (forall e : string,
        base32ToBuffer secret <> [] ->
        hmacSha1 (base32ToBuffer secret) (counterBuffer now windowSeconds)
        = Throw e ->
        generateTOTP now secret windowSeconds = Normal "ERROR"%string)
  /\ (exists s : string,
        generateTOTP now secret windowSeconds = Normal s
        /\ (s = "INVALID"%string \/ s = "ERROR"%string \/ is_code s))
  /\ ~ is_code "INVALID" /\ ~ is_code "ERROR"
  /\ "INVALID"%string <> "ERROR"%string
  /\ generateTOTP now "" windowSeconds = Normal "INVALID"%string
  /\ generateTOTP now "====" windowSeconds = Normal "INVALID"%string.
Proof.
  assert (Hcases :
    base32ToBuffer secret = []
    \/ (base32ToBuffer secret <> []
        /\ ((exists e, hmacSha1 (base32ToBuffer secret)
                         (counterBuffer now windowSeconds) = Throw e)
            \/ (exists d, hmacSha1 (base32ToBuffer secret)
                            (counterBuffer now windowSeconds) = Normal d)))).
  { destruct (base32ToBuffer secret) as [|b key]; [left; reflexivity|].
    right. split; [discriminate|].
    destruct (hmacSha1 (b :: key) (counterBuffer now windowSeconds))
      as [d | e]; [right | left]; eauto. }
  repeat split.
  - intros Hinv. destruct Hcases as [H | (Hne & [[e He] | [d Hd]])];
      [exact H | |].
    + rewrite (generateTOTP_hash_failure _ _ _ _ e Hne He) in Hinv.
      discriminate Hinv.
    + rewrite (generateTOTP_digest _ _ _ _ d Hne Hd) in Hinv.
      injection Hinv as Hinv.
      destruct (code_string_spec _ (otp_of_range d)) as [Hcode _].
      rewrite Hinv in Hcode. destruct (is_code_not_INVALID Hcode).
  - apply generateTOTP_empty_key.
  - intros e Hne He. apply (generateTOTP_hash_failure _ _ _ _ e Hne He).
  - destruct Hcases as [H | (Hne & [[e He] | [d Hd]])].
    + exists "INVALID"%string. split; [|left; reflexivity].
      apply generateTOTP_empty_key, H.
    + exists "ERROR"%string. split; [|right; left; reflexivity].
      apply (generateTOTP_hash_failure _ _ _ _ e Hne He).
    + exists (padStart (Number_toString (otp_of d)) 6 "0"). split.
      * apply generateTOTP_digest; assumption.
      * right; right. apply code_string_spec, otp_of_range.
  - exact is_code_not_INVALID.
  - exact is_code_not_ERROR.
  - discriminate.
Qed.

Lemma generateTOTP_outcomes_witness :
  @generateTOTP NoCrypto 59000 "JBSWY3DP" 30 = Normal "ERROR"%string.
Proof.
  destruct (generateTOTP_outcomes NoCrypto 59000 "JBSWY3DP" 30)
    as (_ & Herr & _).
  apply (Herr "TypeError"%string).
  - vm_compute. discriminate.
  - reflexivity.
Defined.

(** C8. The generator depends on the clock only through [epoch]: two runs
    for one secret and one window length at clock readings with the same
    [epoch] return the same string. *)
Theorem generateTOTP_deterministic (crypto : SubtleCrypto) (now1 now2 : Z)
  (secret : string) (windowSeconds : Z) :
  epoch_of now1 = epoch_of now2 ->
  generateTOTP now1 secret windowSeconds
  = generateTOTP now2 secret windowSeconds.
Proof.
  intros Hepoch. rewrite !generateTOTP_steps. unfold counterBuffer, time_of.
  rewrite Hepoch. reflexivity.
Qed.

Lemma generateTOTP_deterministic_witness :
  @generateTOTP WebCrypto 59000 "GEZDGNBVGY3TQOJQGEZDGNBVGY3TQOJQ" 30
  = @generateTOTP WebCrypto 59499 "GEZDGNBVGY3TQOJQGEZDGNBVGY3TQOJQ" 30.
Proof.
  apply (generateTOTP_deterministic WebCrypto 59000 59499).
  vm_compute. reflexivity.
Defined.

(** Same counter, same code: the whole window [N*w .. N*w + w - 1]. *)
Lemma generateTOTP_same_counter (crypto : SubtleCrypto) (now1 now2 : Z)
  (secret : string) (windowSeconds : Z) :
  time_of now1 windowSeconds = time_of now2 windowSeconds ->
  generateTOTP now1 secret windowSeconds
  = generateTOTP now2 secret windowSeconds.
Proof.
  intros Htime. rewrite !generateTOTP_steps. unfold counterBuffer.
  rewrite Htime. reflexivity.
Qed.

(** ** Time remaining *)

(** C5. For a positive window length and a clock reading at or after the
    epoch, the time remaining is [window - (round(seconds) mod window)];
    it lies in [1, window], and is the whole window when the remainder is
    0, as at epoch 30 with a window of 30. *)
Theorem getTimeRemaining_range (now windowSeconds : Z) :
  0 < windowSeconds -> 0 <= now ->
  getTimeRemaining now windowSeconds
  = windowSeconds - epoch_of now mod windowSeconds
  /\ 1 <= getTimeRemaining now windowSeconds <= windowSeconds
  /\ (epoch_of now mod windowSeconds = 0 ->
      getTimeRemaining now windowSeconds = windowSeconds)
  /\ epoch_of 30000 = 30
  /\ getTimeRemaining 30000 30 = 30.
Proof.
  intros Hw Hnow.
  assert (He : 0 <= epoch_of now).
  { rewrite epoch_of_div. apply Z.div_pos; lia. }
  assert (Hrem : getTimeRemaining now windowSeconds
                 = windowSeconds - epoch_of now mod windowSeconds).
  { unfold getTimeRemaining, js_rem. fold (epoch_of now).
    rewrite Z.rem_mod_nonneg by lia. reflexivity. }
  pose proof (Z.mod_pos_bound (epoch_of now) windowSeconds Hw).
  split; [exact Hrem|]. split; [lia|]. split; [lia|].
  split; reflexivity.
Qed.

Lemma getTimeRemaining_range_witness :
  getTimeRemaining 59000 30 = 1 /\ getTimeRemaining 30000 30 = 30.
Proof.
  destruct (getTimeRemaining_range 59000 30 ltac:(lia) ltac:(lia))
    as (H1 & _ & _ & _ & H2).
  split; [rewrite H1; reflexivity | exact H2].
Defined.

(** C5 as stated fails: at a clock reading one second before the Unix
    epoch the rounded clock is -1, the remainder of [%] is -1, and with a
    window of 30 the result is 31, which is neither
    [30 - ((-1) mod 30) = 1] nor within [1, 30]. *)
Lemma getTimeRemaining_negative_clock :
  epoch_of (-1000) = -1
  /\ getTimeRemaining (-1000) 30 = 31
  /\ getTimeRemaining (-1000) 30 <> 30 - epoch_of (-1000) mod 30
  /\ ~ (1 <= getTimeRemaining (-1000) 30 <= 30).
Proof.
  assert (He : epoch_of (-1000) = -1) by (vm_compute; reflexivity).
  assert (Hr : getTimeRemaining (-1000) 30 = 31) by (vm_compute; reflexivity).
  rewrite He, Hr. repeat apply conj; [reflexivity | reflexivity | |].
  - vm_compute. discriminate.
  - lia.
Qed.

(** ** Counter serialisation *)

(** C6, as the code has it. [epoch] is the clock rounded to the nearest
    second (half-way cases up), the counter is [floor(epoch / window)], and
    the message is four zero bytes followed by the big-endian low 32 bits
    of the counter; it is the 64-bit big-endian counter whenever the
    counter is below 2^32. *)
Theorem counterBuffer_spec (now windowSeconds : Z) :
  0 < windowSeconds ->
  epoch_of now = (now + 500) / 1000
  /\ epoch_of 1500 = 2
  /\ time_of now windowSeconds = epoch_of now / windowSeconds
  /\ counterBuffer now windowSeconds
     = [0; 0; 0; 0] ++ be_bytes 4 (time_of now windowSeconds mod 2 ^ 32)
  /\ (0 <= time_of now windowSeconds < 2 ^ 32 ->
      counterBuffer now windowSeconds
      = be_bytes 8 (time_of now windowSeconds)).
Proof.
  intros Hw. split; [apply epoch_of_div|].
  split; [reflexivity|].
  split; [apply time_of_div|].
  split; [apply counterBuffer_low | apply counterBuffer_be64].
Qed.

Lemma counterBuffer_spec_witness :
  counterBuffer 59000 30 = [0; 0; 0; 0; 0; 0; 0; 1].
Proof.
  destruct (counterBuffer_spec 59000 30 ltac:(lia)) as (_ & _ & _ & _ & H).
  rewrite H; [reflexivity|]. vm_compute. split; [discriminate | reflexivity].
Defined.

(** C6 as stated fails: at a counter of 2^32 (one-second windows in the
    year 2106) the message is all zeros, which is not the 64-bit
    representation of the counter. *)
Lemma counterBuffer_not_be64 :
  time_of 4294967296000 1 = 4294967296
  /\ counterBuffer 4294967296000 1 = [0; 0; 0; 0; 0; 0; 0; 0]
  /\ be_bytes 8 (time_of 4294967296000 1) = [0; 0; 0; 1; 0; 0; 0; 0]
  /\ counterBuffer 4294967296000 1 <> be_bytes 8 (time_of 4294967296000 1).
Proof.
  split; [vm_compute; reflexivity|].
  split; [vm_compute; reflexivity|].
  split; [vm_compute; reflexivity|].
  vm_compute. discriminate.
Qed.

(** ** RFC 6238 test vectors *)

(** C9. With the platform's HMAC-SHA-1 as the standards define it, the
    generator on the RFC 6238 seed returns, at each time of the RFC's
    table, the low six digits of the published SHA-1 value (94287082,
    07081804, 14050471, 89005924, 69279037, 65353130); at 59 s the
    truncated 31-bit value itself gives the published eight digits. *)
Theorem generateTOTP_rfc6238 :
  base32ToBuffer rfc6238_secret = rfc6238_seed
  /\ @generateTOTP WebCrypto 59000 rfc6238_secret 30 = Normal "287082"%string
  /\ @generateTOTP WebCrypto 1111111109000 rfc6238_secret 30
     = Normal "081804"%string
  /\ @generateTOTP WebCrypto 1111111111000 rfc6238_secret 30
     = Normal "050471"%string
  /\ @generateTOTP WebCrypto 1234567890000 rfc6238_secret 30
     = Normal "005924"%string
  /\ @generateTOTP WebCrypto 2000000000000 rfc6238_secret 30
     = Normal "279037"%string
  /\ @generateTOTP WebCrypto 20000000000000 rfc6238_secret 30
     = Normal "353130"%string
  /\ binary_of (Sha1.hmac rfc6238_seed (counterBuffer 59000 30))
     mod 100000000 = 94287082.
Proof. repeat apply conj; vm_compute; reflexivity. Qed.

Example base32_decode_hello : base32_decode "jbsw y3dp==" = [72; 101; 108; 108; 111].
Proof. vm_compute. reflexivity. Qed.

(** ** Validator against decoder *)

Lemma in_class_alphabet (c : ascii) :
  in_class c = negb (indexOf base32Chars (upper_char c) =? -1).
Proof. each_char c; reflexivity. Qed.

Lemma in_class_not_pad (c : ascii) : in_class c = true -> is_pad c = false.
Proof. each_char c; congruence. Qed.

Lemma match_tail_body (t : string) :
  match_tail t = true ->
  forall c : ascii, In c (chars (remove_trailing_pad t)) -> in_class c = true.
Proof.
  induction t as [|d t IH]; intros Hm c Hin; [destruct Hin|].
  cbn [match_tail] in Hm. cbn [remove_trailing_pad] in Hin.
  destruct (in_class d) eqn:Hd.
  - cbn [all_pad] in Hin. rewrite (in_class_not_pad d Hd) in Hin.
    cbn [andb chars list_ascii_of_string] in Hin.
    destruct Hin as [<- | Hin]; [exact Hd | exact (IH Hm c Hin)].
  - rewrite Hm in Hin. destruct Hin.
Qed.

Lemma regex_test_body (t : string) :
  regex_test t = true ->
  forall c : ascii, In c (chars (remove_trailing_pad t)) -> in_class c = true.
Proof.
  destruct t as [|d t]; [discriminate|].
  cbn [regex_test]. intros Hm c Hin.
  apply andb_prop in Hm as [Hd Hm].
  cbn [remove_trailing_pad all_pad] in Hin.
  rewrite (in_class_not_pad d Hd) in Hin.
  cbn [andb chars list_ascii_of_string] in Hin.
  destruct Hin as [<- | Hin]; [exact Hd|].
  exact (match_tail_body t Hm c Hin).
Qed.

(** C7. The validator rejects a missing or empty argument and every
    string that, once whitespace is removed, has a character outside the
    alphabet (in either case) before its trailing [=]; ["JBSW-Y3DP"] is
    rejected, while the decoder skips its [-] and returns the five bytes
    it returns for ["JBSWY3DP"]. *)
Theorem isValidBase32_stricter :
  isValidBase32 None = false
  /\ isValidBase32 (Some EmptyString) = false
  /\ (forall (s : string) (c : ascii),
        In c (chars (remove_trailing_pad (remove_spaces s))) ->
        indexOf base32Chars (upper_char c) = -1 ->
        isValidBase32 (Some s) = false)
  /\ isValidBase32 (Some "JBSW-Y3DP"%string) = false
  /\ base32ToBuffer "JBSW-Y3DP" = [72; 101; 108; 108; 111]
  /\ base32ToBuffer "JBSW-Y3DP" = base32ToBuffer "JBSWY3DP"
  /\ base32ToBuffer "JBSW-Y3DP" <> [].
Proof.
  split; [reflexivity|]. split; [reflexivity|]. split.
  - intros s c Hin Hout. cbn [isValidBase32].
    destruct (str_length s =? 0); [reflexivity|].
    destruct (regex_test (remove_spaces s)) eqn:Hm; [|reflexivity].
    pose proof (regex_test_body _ Hm c Hin) as Hc.
    rewrite in_class_alphabet, Hout in Hc. discriminate Hc.
  - repeat apply conj; try (vm_compute; reflexivity).
    vm_compute. discriminate.
Qed.

Lemma isValidBase32_stricter_witness :
  isValidBase32 (Some "JBSW-Y3DP==  "%string) = false.
Proof.
  destruct isValidBase32_stricter as (_ & _ & H & _).
  apply (H "JBSW-Y3DP==  "%string "-"%char).
  - vm_compute. tauto.
  - reflexivity.
Defined.

(** ** The decoder on strings with skipped characters *)

(** C1. The cleaned form of ["--"] has no alphabet character, yet the
    decoder returns the one-byte buffer it allocated from the length of
    the cleaned string, and the generator goes on to produce a code. *)
Theorem base32ToBuffer_no_valid_char :
  valid_count (normalize "--") = 0%nat
  /\ valid_count (cleanStr "--") = 0%nat
  /\ base32_decode "--" = []
  /\ base32ToBuffer "--" = [0]
  /\ @generateTOTP WebCrypto 59000 "--" 30 = Normal "812658"%string.
Proof. repeat apply conj; vm_compute; reflexivity. Qed.

(** C4. On ["JBSWY3DP--"] the decoder returns the five bytes of the
    reference decoder followed by a zero byte: the buffer keeps the length
    computed from all ten characters of the cleaned string.  The same
    happens on ["JBSWY3DP=== "], which the validator accepts. *)
Theorem base32ToBuffer_trailing_zero :
  base32_decode "JBSWY3DP--" = [72; 101; 108; 108; 111]
  /\ base32ToBuffer "JBSWY3DP--" = [72; 101; 108; 108; 111; 0]
  /\ base32_decode "JBSWY3DP=== " = [72; 101; 108; 108; 111]
  /\ base32ToBuffer "JBSWY3DP=== " = [72; 101; 108; 108; 111; 0]
  /\ isValidBase32 (Some "JBSWY3DP=== "%string) = true.
Proof. repeat apply conj; vm_compute; reflexivity. Qed.

(** ** The decoder in general

    What [base32ToBuffer] returns on every string: the bytes of the
    reference decoder, then zero bytes up to the allocated length. *)

Lemma indexOf_alphabet (c : ascii) :
  indexOf base32Chars c
  = match alphabet_position c with Some v => v | None => -1 end.
Proof. each_char c; reflexivity. Qed.

Lemma alphabet_position_range (c : ascii) (v : Z) :
  alphabet_position c = Some v -> 0 <= v < 32.
Proof.
  unfold alphabet_position.
  destruct ((65 <=? code c) && (code c <=? 90)) eqn:E1.
  - intros [= <-]. apply andb_prop in E1 as [H1 H2].
    apply Z.leb_le in H1. apply Z.leb_le in H2. lia.
  - destruct ((50 <=? code c) && (code c <=? 55)) eqn:E2; [|discriminate].
    intros [= <-]. apply andb_prop in E2 as [H1 H2].
    apply Z.leb_le in H1. apply Z.leb_le in H2. lia.
Qed.

Lemma lor_mod (a b n : Z) :
  0 <= n -> Z.lor a b mod 2 ^ n = Z.lor (a mod 2 ^ n) (b mod 2 ^ n).
Proof.
  intros Hn. rewrite <- !Z.land_ones by lia. apply Z.land_lor_distr_l.
Qed.

Lemma agree_step (value acc idx : Z) :
  agree value acc -> 0 <= idx < 32 ->
  agree (js_or (js_shl value 5) idx) (Z.lor (Z.shiftl acc 5) idx).
Proof.
  unfold agree. intros Hag Hidx. unfold js_or, js_shl, ToUint32.
  change (5 mod 2 ^ 32 mod 32) with 5.
  rewrite (ToInt32_small idx) by lia.
  rewrite !lor_mod by lia. f_equal.
  rewrite !ToInt32_mod by lia.
  rewrite !Z.shiftl_mul_pow2 by lia.
  rewrite <- Z.mul_mod_idemp_l by lia.
  rewrite ToInt32_mod by lia.
  rewrite Hag. apply Z.mul_mod_idemp_l. lia.
Qed.

Lemma shiftr_mod_low (a k : Z) :
  0 <= k <= 24 -> Z.shiftr (a mod 2 ^ 32) k mod 2 ^ 8 = Z.shiftr a k mod 2 ^ 8.
Proof.
  intros Hk. apply Z.bits_inj'. intros n Hn.
  destruct (Z.lt_ge_cases n 8) as [Hlt | Hge].
  - rewrite !Z.mod_pow2_bits_low by lia.
    rewrite !Z.shiftr_spec by lia.
    apply Z.mod_pow2_bits_low. lia.
  - rewrite !Z.mod_pow2_bits_high by lia. reflexivity.
Qed.

Lemma emitted_byte (value acc k : Z) :
  agree value acc -> 0 <= k <= 24 ->
  ToUint8 (js_and (js_ushr value k) 255) = Z.land (Z.shiftr acc k) 255.
Proof.
  unfold agree. intros Hag Hk.
  rewrite (js_and_ones _ 8 ltac:(lia) : js_and _ 255 = _).
  unfold ToUint8. rewrite Z.mod_mod by lia.
  unfold js_ushr, ToUint32.
  rewrite (Z.mod_small k (2 ^ 32)) by lia.
  rewrite (Z.mod_small k 32) by lia.
  rewrite Hag, shiftr_mod_low by lia.
  rewrite (Z.land_ones _ 8 ltac:(lia) : Z.land _ 255 = _). reflexivity.
Qed.

Lemma fold_decode_char (cs : list ascii) : forall (st : decoder) (acc : Z),
  agree (dec_value st) acc ->
  0 <= dec_bits st < 8 ->
  0 <= dec_index st ->
  dec_buffer (fold_left decode_char cs st)
  = write_from (dec_buffer st) (Z.to_nat (dec_index st))
      (decode_loop cs acc (dec_bits st)).
Proof.
  induction cs as [|c cs IH]; intros st acc Hag Hbits Hidx; [reflexivity|].
  cbn [fold_left decode_loop]. unfold decode_char at 2.
  rewrite indexOf_alphabet.
  destruct (alphabet_position c) as [v|] eqn:Hv.
  - pose proof (alphabet_position_range c v Hv) as Hr.
    destruct (v =? -1) eqn:E; [apply Z.eqb_eq in E; lia|].
    pose proof (agree_step _ _ v Hag Hr) as Hag'.
    cbv zeta.
    destruct (8 <=? dec_bits st + 5) eqn:E8.
    + apply Z.leb_le in E8.
      rewrite (IH _ (Z.lor (Z.shiftl acc 5) v)); cbn [dec_value dec_bits dec_index dec_buffer];
        [|exact Hag'|lia|lia].
      cbn [write_from]. unfold Uint8Array_set.
      destruct (0 <=? dec_index st) eqn:E0; [|apply Z.leb_gt in E0; lia].
      rewrite (emitted_byte _ _ _ Hag') by lia.
      rewrite Z2Nat.inj_add by lia. rewrite Nat.add_1_r. reflexivity.
    + apply Z.leb_gt in E8.
      rewrite (IH _ (Z.lor (Z.shiftl acc 5) v)); cbn [dec_value dec_bits dec_index dec_buffer];
        [reflexivity|exact Hag'|lia|lia].
  - change (-1 =? -1) with true. cbv iota. apply IH; assumption.
Qed.

Lemma write_from_zeros (bytes : list Z) : forall (done : list Z) (m : nat),
  (length bytes <= m)%nat ->
  write_from (done ++ replicate m 0) (length done) bytes
  = done ++ bytes ++ replicate (m - length bytes) 0.
Proof.
  induction bytes as [|b bytes IH]; intros done m Hm; cbn [write_from length].
  - rewrite Nat.sub_0_r. reflexivity.
  - cbn [length] in Hm. destruct m as [|m]; [lia|].
    replace (length done) with (length done + 0)%nat at 1 by lia.
    rewrite insert_app_r. cbn.
    replace (done ++ b :: replicate m 0) with ((done ++ [b]) ++ replicate m 0)
      by (rewrite <- app_assoc; reflexivity).
    replace (S (length done)) with (length (done ++ [b]))
      by (rewrite length_app; cbn; lia).
    rewrite IH by lia. rewrite <- app_assoc. reflexivity.
Qed.

(** The reference decoder emits one byte for every eight bits read. *)
Lemma decode_loop_length (cs : list ascii) : forall acc bits : Z,
  0 <= bits < 8 ->
  Z.of_nat (length (decode_loop cs acc bits))
  = (bits + 5 * Z.of_nat (length (List.filter is_alphabet cs))) / 8.
Proof.
  induction cs as [|c cs IH]; intros acc bits Hbits.
  - cbn. rewrite Z.add_0_r. symmetry. apply Z.div_small. lia.
  - cbn [decode_loop List.filter]. unfold is_alphabet at 1.
    destruct (alphabet_position c) as [v|]; [|apply IH; exact Hbits].
    cbv zeta. cbn [length]. rewrite Nat2Z.inj_succ.
    set (n := Z.of_nat (length (List.filter is_alphabet cs))).
    destruct (8 <=? bits + 5) eqn:E8.
    + apply Z.leb_le in E8. cbn [length]. rewrite Nat2Z.inj_succ.
      rewrite IH by lia. fold n.
      replace (bits + 5 * Z.succ n) with (bits + 5 - 8 + 5 * n + 1 * 8) by lia.
      rewrite Z.div_add by lia. lia.
    + apply Z.leb_gt in E8. rewrite IH by lia. fold n.
      f_equal. lia.
Qed.

Lemma decode_loop_filter (cs : list ascii) : forall acc bits : Z,
  decode_loop cs acc bits = decode_loop (List.filter is_alphabet cs) acc bits.
Proof.
  induction cs as [|c cs IH]; intros acc bits; [reflexivity|].
  cbn [decode_loop List.filter]. unfold is_alphabet at 1.
  destruct (alphabet_position c) as [v|] eqn:Hv; [|apply IH].
  cbn [decode_loop]. rewrite Hv. cbv zeta.
  destruct (8 <=? bits + 5); rewrite IH; reflexivity.
Qed.

Lemma space_not_alphabet (c : ascii) : is_space c = true -> is_alphabet c = false.
Proof. each_char c; congruence. Qed.

Lemma pad_not_alphabet (c : ascii) : is_pad c = true -> is_alphabet c = false.
Proof. each_char c; congruence. Qed.

Lemma filter_remove_spaces (t : string) :
  List.filter is_alphabet (chars (remove_spaces t))
  = List.filter is_alphabet (chars t).
Proof.
  induction t as [|c t IH]; [reflexivity|].
  cbn [remove_spaces]. destruct (is_space c) eqn:E.
  - cbn [chars list_ascii_of_string List.filter].
    rewrite (space_not_alphabet c E). exact IH.
  - cbn [chars list_ascii_of_string List.filter].
    fold (chars (remove_spaces t)). fold (chars t). rewrite IH. reflexivity.
Qed.

Lemma filter_all_pad (t : string) :
  all_pad t = true -> List.filter is_alphabet (chars t) = [].
Proof.
  induction t as [|c t IH]; [reflexivity|].
  cbn [all_pad]. intros H. apply andb_prop in H as [Hc Ht].
  cbn [chars list_ascii_of_string List.filter].
  rewrite (pad_not_alphabet c Hc). exact (IH Ht).
Qed.

Lemma filter_remove_trailing_pad (t : string) :
  List.filter is_alphabet (chars (remove_trailing_pad t))
  = List.filter is_alphabet (chars t).
Proof.
  induction t as [|c t IH]; [reflexivity|].
  cbn [remove_trailing_pad]. destruct (all_pad (String c t)) eqn:E.
  - symmetry. apply filter_all_pad. exact E.
  - cbn [chars list_ascii_of_string List.filter].
    fold (chars (remove_trailing_pad t)). fold (chars t).
    rewrite IH. reflexivity.
Qed.

(** The two orders of normalisation keep the same alphabet characters. *)
Lemma filter_cleanStr_normalize (s : string) :
  List.filter is_alphabet (chars (cleanStr s))
  = List.filter is_alphabet (chars (normalize s)).
Proof.
  unfold cleanStr, normalize.
  rewrite filter_remove_spaces, !filter_remove_trailing_pad,
    filter_remove_spaces.
  reflexivity.
Qed.

Lemma length_chars (s : string) : length (chars s) = String.length s.
Proof.
  induction s as [|c s IH]; [reflexivity|].
  cbn [chars list_ascii_of_string length String.length].
  fold (chars s). rewrite IH. reflexivity.
Qed.

Lemma filter_length_le (cs : list ascii) :
  (length (List.filter is_alphabet cs) <= length cs)%nat.
Proof.
  induction cs as [|c cs IH]; cbn [List.filter length]; [lia|].
  destruct (is_alphabet c); cbn [length]; lia.
Qed.

Lemma buffer_size (n : Z) :
  0 <= n -> n * 5 / 8 < 2 ^ 31 ->
  js_or (truncate (inject_Z (n * 5) / 8)) 0 = n * 5 / 8.
Proof.
  intros Hn Hlt.
  assert (Ht : truncate (inject_Z (n * 5) / 8) = n * 5 / 8).
  { unfold truncate. cbn. rewrite Z.mul_1_r.
    apply Z.quot_div_nonneg; lia. }
  rewrite Ht. unfold js_or.
  assert (0 <= n * 5 / 8) by (apply Z.div_pos; lia).
  rewrite !ToInt32_small by lia. apply Z.lor_0_r.
Qed.

(** The length of the reference decode: five bits a character. *)
Lemma base32_decode_length (s : string) :
  Z.of_nat (length (base32_decode s))
  = 5 * Z.of_nat (valid_count (normalize s)) / 8.
Proof.
  unfold base32_decode, valid_count.
  rewrite decode_loop_length by lia. reflexivity.
Qed.

Lemma decoder_padded (s : string) :
  str_length (cleanStr s) * 5 / 8 < 2 ^ 31 ->
  base32ToBuffer s
  = base32_decode s
      ++ replicate (Z.to_nat (str_length (cleanStr s) * 5 / 8)
                    - length (base32_decode s)) 0.
Proof.
  intros Hsize. unfold base32ToBuffer. cbv zeta.
  assert (Hlen : 0 <= str_length (cleanStr s)) by (unfold str_length; lia).
  rewrite buffer_size by assumption.
  set (cap := Z.to_nat (str_length (cleanStr s) * 5 / 8)).
  rewrite (fold_decode_char _ _ 0); cbn [dec_value dec_bits dec_index dec_buffer];
    [|reflexivity|lia|lia].
  assert (Hsame : decode_loop (chars (cleanStr s)) 0 0 = base32_decode s).
  { unfold base32_decode.
    rewrite decode_loop_filter, filter_cleanStr_normalize, <- decode_loop_filter.
    reflexivity. }
  rewrite Hsame.
  assert (Hle : (length (base32_decode s) <= cap)%nat).
  { pose proof (base32_decode_length s) as HL.
    unfold valid_count in HL. rewrite <- filter_cleanStr_normalize in HL.
    pose proof (filter_length_le (chars (cleanStr s))) as Hf.
    rewrite length_chars in Hf.
    assert (Hd : 5 * Z.of_nat (length (List.filter is_alphabet (chars (cleanStr s)))) / 8
                 <= str_length (cleanStr s) * 5 / 8).
    { apply Z.div_le_mono; [lia|]. unfold str_length. lia. }
    unfold cap. lia. }
  unfold Uint8Array_new. fold cap.
  apply (write_from_zeros (base32_decode s) [] cap Hle).
Qed.

Lemma decoder_exact (s : string) :
  str_length (cleanStr s) * 5 / 8 < 2 ^ 31 ->
  forallb is_alphabet (chars (cleanStr s)) = true ->
  base32ToBuffer s = base32_decode s.
Proof.
  intros Hsize Hall. rewrite decoder_padded by exact Hsize.
  assert (Hf : List.filter is_alphabet (chars (cleanStr s)) = chars (cleanStr s)).
  { revert Hall. generalize (chars (cleanStr s)). intros cs.
    induction cs as [|c cs IH]; [reflexivity|].
    cbn [forallb List.filter]. intros H. apply andb_prop in H as [Hc Hcs].
    rewrite Hc, (IH Hcs). reflexivity. }
  pose proof (base32_decode_length s) as HL.
  unfold valid_count in HL.
  rewrite <- filter_cleanStr_normalize, Hf, length_chars in HL.
  replace (Z.to_nat (str_length (cleanStr s) * 5 / 8) - length (base32_decode s))%nat
    with 0%nat.
  - apply app_nil_r.
  - unfold str_length.
    replace (Z.of_nat (String.length (cleanStr s)) * 5)
      with (5 * Z.of_nat (String.length (cleanStr s))) by lia.
    lia.
Qed.

Lemma decoder_length (s : string) :
  str_length (cleanStr s) * 5 / 8 < 2 ^ 31 ->
  Z.of_nat (length (base32ToBuffer s)) = str_length (cleanStr s) * 5 / 8.
Proof.
  intros Hsize. unfold base32ToBuffer. cbv zeta.
  assert (Hlen : 0 <= str_length (cleanStr s)) by (unfold str_length; lia).
  rewrite buffer_size by assumption.
  rewrite (fold_decode_char _ _ 0); cbn [dec_value dec_bits dec_index dec_buffer];
    [|reflexivity|lia|lia].
  assert (Hw : forall (bytes buffer : list Z) (i : nat),
             length (write_from buffer i bytes) = length buffer).
  { induction bytes as [|b bytes IH]; intros buffer i; cbn [write_from];
      [reflexivity|].
    rewrite IH. apply length_insert. }
  rewrite Hw. unfold Uint8Array_new. rewrite length_replicate.
  apply Z2Nat.id. apply Z.div_pos; lia.
Qed.

(** X1. The decoder returns the reference decode followed by zero bytes up
    to [floor (length cleanStr * 5 / 8)]. *)
Theorem base32ToBuffer_decode (s : string) :
  str_length (cleanStr s) * 5 / 8 < 2 ^ 31 ->
  base32ToBuffer s
  = base32_decode s
      ++ replicate (Z.to_nat (str_length (cleanStr s) * 5 / 8)
                    - length (base32_decode s)) 0.
Proof. exact (decoder_padded s). Qed.

Lemma base32ToBuffer_decode_witness :
  base32ToBuffer "JBSW-Y3DP-=" = [72; 101; 108; 108; 111; 0].
Proof.
  rewrite (base32ToBuffer_decode "JBSW-Y3DP-=").
  - vm_compute. reflexivity.
  - vm_compute. reflexivity.
Defined.

(** X2. When every character of the cleaned string is in the alphabet, the
    decoder and the reference decoder return the same bytes. *)
Theorem base32ToBuffer_exact (s : string) :
  str_length (cleanStr s) * 5 / 8 < 2 ^ 31 ->
  forallb is_alphabet (chars (cleanStr s)) = true ->
  base32ToBuffer s = base32_decode s.
Proof. exact (decoder_exact s). Qed.

Lemma base32ToBuffer_exact_witness :
  base32ToBuffer "jbsw y3dp==" = base32_decode "jbsw y3dp==".
Proof.
  apply (base32ToBuffer_exact "jbsw y3dp=="); vm_compute; reflexivity.
Defined.

(** X19. The length of what the decoder returns is the allocated length,
    [floor (length cleanStr * 5 / 8)], whatever the characters are. *)
Theorem base32ToBuffer_length (s : string) :
  str_length (cleanStr s) * 5 / 8 < 2 ^ 31 ->
  Z.of_nat (length (base32ToBuffer s)) = str_length (cleanStr s) * 5 / 8.
Proof. exact (decoder_length s). Qed.

Lemma base32ToBuffer_length_witness :
  length (base32ToBuffer "--------") = 5%nat.
Proof.
  apply Nat2Z.inj.
  rewrite (base32ToBuffer_length "--------"); vm_compute; reflexivity.
Defined.

Lemma decoder_empty_iff (s : string) :
  str_length (cleanStr s) * 5 / 8 < 2 ^ 31 ->
  base32ToBuffer s = [] <-> (String.length (cleanStr s) <= 1)%nat.
Proof.
  intros Hsize. pose proof (decoder_length s Hsize) as Hlen.
  unfold str_length in *.
  set (n := String.length (cleanStr s)) in *.
  split.
  - intros Hnil. rewrite Hnil in Hlen. cbn [length] in Hlen.
    destruct (Nat.le_gt_cases n 1) as [Hle | Hgt]; [exact Hle|].
    assert (1 <= Z.of_nat n * 5 / 8) by (apply Z.div_le_lower_bound; lia).
    lia.
  - intros Hle.
    assert (Hz : Z.of_nat n * 5 / 8 = 0) by (apply Z.div_small; lia).
    rewrite Hz in Hlen.
    destruct (base32ToBuffer s); [reflexivity | cbn [length] in Hlen; lia].
Qed.

Lemma generateTOTP_INVALID_iff (crypto : SubtleCrypto) (now : Z)
  (secret : string) (windowSeconds : Z) :
  generateTOTP now secret windowSeconds = Normal "INVALID"%string
  <-> base32ToBuffer secret = [].
Proof.
  split; [|apply generateTOTP_empty_key].
  intros Hinv.
  destruct (base32ToBuffer secret) as [|b key] eqn:E; [reflexivity|].
  assert (Hne : base32ToBuffer secret <> []) by (rewrite E; discriminate).
  destruct (hmacSha1 (base32ToBuffer secret)
              (counterBuffer now windowSeconds)) as [d | e] eqn:Hm.
  - rewrite (generateTOTP_digest _ _ _ _ d Hne Hm) in Hinv.
    injection Hinv as Hinv.
    destruct (code_string_spec _ (otp_of_range d)) as [Hcode _].
    rewrite Hinv in Hcode. destruct (is_code_not_INVALID Hcode).
  - rewrite (generateTOTP_hash_failure _ _ _ _ e Hne Hm) in Hinv.
    discriminate Hinv.
Qed.

(** X3. The generator answers ["INVALID"] exactly when the cleaned secret
    (upper-cased, trailing [=] cut, whitespace removed) has at most one
    character, whatever the characters are: two or more characters, valid
    or not, give a key of at least one byte. *)
Theorem generateTOTP_INVALID_short (crypto : SubtleCrypto) (now : Z)
  (secret : string) (windowSeconds : Z) :
  str_length (cleanStr secret) * 5 / 8 < 2 ^ 31 ->
  generateTOTP now secret windowSeconds = Normal "INVALID"%string
  <-> (String.length (cleanStr secret) <= 1)%nat.
Proof.
  intros Hsize. rewrite generateTOTP_INVALID_iff.
  apply decoder_empty_iff, Hsize.
Qed.

Lemma generateTOTP_INVALID_short_witness :
  @generateTOTP NoCrypto 0 " a ==" 30 = Normal "INVALID"%string.
Proof.
  assert (Hsize : str_length (cleanStr " a ==") * 5 / 8 < 2 ^ 31)
    by (vm_compute; reflexivity).
  destruct (generateTOTP_INVALID_short NoCrypto 0 " a ==" 30 Hsize)
    as [_ Hback].
  apply Hback. vm_compute. apply le_n.
Defined.

Lemma decode_char_bytes (st : decoder) (c : ascii) :
  is_bytes (dec_buffer st) -> is_bytes (dec_buffer (decode_char st c)).
Proof.
  intros Hb. unfold decode_char.
  destruct (indexOf base32Chars c =? -1); [exact Hb|].
  cbv zeta. destruct (8 <=? dec_bits st + 5); [|exact Hb].
  cbn [dec_buffer]. unfold Uint8Array_set.
  destruct (0 <=? dec_index st); [|exact Hb].
  apply Forall_insert; [exact Hb|].
  unfold ToUint8. apply Z.mod_pos_bound. lia.
Qed.

Lemma fold_decode_char_bytes (cs : list ascii) : forall st : decoder,
  is_bytes (dec_buffer st) ->
  is_bytes (dec_buffer (fold_left decode_char cs st)).
Proof.
  induction cs as [|c cs IH]; intros st Hb; [exact Hb|].
  cbn [fold_left]. apply IH, decode_char_bytes, Hb.
Qed.

(** Every element of the array the decoder returns is a byte, for
    every input string. *)
Theorem base32ToBuffer_bytes (s : string) : is_bytes (base32ToBuffer s).
Proof.
  unfold base32ToBuffer. cbv zeta.
  apply fold_decode_char_bytes. cbn [dec_buffer].
  unfold Uint8Array_new, is_bytes. apply Forall_replicate. lia.
Qed.

(** ** The validator in full *)

Lemma pad_not_class (c : ascii) : is_pad c = true -> in_class c = false.
Proof. each_char c; congruence. Qed.

Lemma all_pad_match_tail (p : string) : all_pad p = true -> match_tail p = true.
Proof.
  destruct p as [|c p]; [reflexivity|].
  intros Hp. cbn [match_tail].
  cbn [all_pad] in Hp. apply andb_prop in Hp as Hcp. destruct Hcp as [Hc _].
  rewrite (pad_not_class c Hc). exact Hp.
Qed.

Lemma match_tail_split (t : string) :
  match_tail t = true <->
  exists body pad : string,
    t = String.append body pad
    /\ forallb in_class (chars body) = true /\ all_pad pad = true.
Proof.
  split.
  - induction t as [|c t IH]; intros Hm.
    + exists EmptyString, EmptyString. auto.
    + cbn [match_tail] in Hm. destruct (in_class c) eqn:Hc.
      * destruct (IH Hm) as (body & pad & -> & Hb & Hp).
        exists (String c body), pad. repeat apply conj; [reflexivity | | exact Hp].
        cbn [chars list_ascii_of_string forallb]. fold (chars body).
        rewrite Hc, Hb. reflexivity.
      * exists EmptyString, (String c t). auto.
  - intros (body & pad & -> & Hb & Hp). revert Hb.
    induction body as [|c body IH]; intros Hb.
    + apply all_pad_match_tail, Hp.
    + cbn [chars list_ascii_of_string forallb] in Hb. fold (chars body) in Hb.
      apply andb_prop in Hb as [Hc Hb].
      change (String.append (String c body) pad)
        with (String c (String.append body pad)).
      cbn [match_tail]. rewrite Hc. exact (IH Hb).
Qed.

Lemma regex_test_split (t : string) :
  regex_test t = true <->
  exists body pad : string,
    t = String.append body pad /\ body <> EmptyString
    /\ forallb in_class (chars body) = true /\ all_pad pad = true.
Proof.
  split.
  - destruct t as [|c t]; [discriminate|]. cbn [regex_test]. intros Hm.
    apply andb_prop in Hm as [Hc Hm].
    apply match_tail_split in Hm as (body & pad & -> & Hb & Hp).
    exists (String c body), pad.
    repeat apply conj; [reflexivity | discriminate | | exact Hp].
    cbn [chars list_ascii_of_string forallb]. fold (chars body).
    rewrite Hc, Hb. reflexivity.
  - intros (body & pad & -> & Hne & Hb & Hp).
    destruct body as [|c body]; [congruence|].
    cbn [chars list_ascii_of_string forallb] in Hb. fold (chars body) in Hb.
    apply andb_prop in Hb as [Hc Hb].
    change (String.append (String c body) pad)
      with (String c (String.append body pad)).
    cbn [regex_test]. rewrite Hc. cbn [andb].
    apply match_tail_split. exists body, pad. auto.
Qed.

(** X4. The validator accepts a string exactly when, once its whitespace
    is removed, it is one or more characters of [A-Z], [a-z], [2-7]
    followed by any number of [=] and nothing else. *)
Theorem isValidBase32_shape (s : string) :
  isValidBase32 (Some s) = true <->
  exists body pad : string,
    remove_spaces s = String.append body pad /\ body <> EmptyString
    /\ forallb in_class (chars body) = true /\ all_pad pad = true.
Proof.
  cbn [isValidBase32]. destruct s as [|c s].
  - cbn. split; [discriminate|].
    intros (body & pad & Heq & Hne & _). destruct body; [congruence|].
    discriminate Heq.
  - replace (str_length (String c s) =? 0) with false
      by (symmetry; apply Z.eqb_neq; unfold str_length; cbn [String.length]; lia).
    apply regex_test_split.
Qed.

(** ** Counter and windows *)

Lemma epoch_of_ms (e d : Z) : -500 <= d < 500 -> epoch_of (1000 * e + d) = e.
Proof.
  intros Hd. rewrite epoch_of_div. symmetry.
  apply (Z.div_unique_pos _ _ e (d + 500)); lia.
Qed.

Lemma generateTOTP_counter_mod (crypto : SubtleCrypto) (now1 now2 : Z)
  (secret : string) (w1 w2 : Z) :
  time_of now1 w1 mod 2 ^ 32 = time_of now2 w2 mod 2 ^ 32 ->
  generateTOTP now1 secret w1 = generateTOTP now2 secret w2.
Proof.
  intros Hmod. rewrite !generateTOTP_steps, !counterBuffer_low, Hmod.
  reflexivity.
Qed.

(** X5. The code is the same throughout a window: at every clock reading
    that rounds to one of the seconds [N*w .. N*w + w - 1] the generator
    returns what it returns at second [N*w]. *)
Theorem generateTOTP_window (crypto : SubtleCrypto) (secret : string)
  (windowSeconds N k d : Z) :
  0 < windowSeconds -> 0 <= k < windowSeconds -> -500 <= d < 500 ->
  generateTOTP (1000 * (N * windowSeconds + k) + d) secret windowSeconds
  = generateTOTP (1000 * (N * windowSeconds)) secret windowSeconds.
Proof.
  intros Hw Hk Hd. apply generateTOTP_same_counter.
  rewrite !time_of_div, epoch_of_ms by lia.
  replace (1000 * (N * windowSeconds)) with (1000 * (N * windowSeconds) + 0)
    by lia.
  rewrite epoch_of_ms by lia.
  rewrite Z.div_mul by lia. symmetry.
  apply (Z.div_unique_pos _ _ N k); lia.
Qed.

Lemma generateTOTP_window_witness :
  @generateTOTP WebCrypto 89499 "GEZDGNBVGY3TQOJQGEZDGNBVGY3TQOJQ" 30
  = @generateTOTP WebCrypto 60000 "GEZDGNBVGY3TQOJQGEZDGNBVGY3TQOJQ" 30.
Proof.
  apply (generateTOTP_window WebCrypto "GEZDGNBVGY3TQOJQGEZDGNBVGY3TQOJQ"
           30 2 29 499); lia.
Defined.

(** X6. Only the low 32 bits of the counter reach the HMAC, so the codes
    of a secret repeat after 2^32 windows. *)
Theorem generateTOTP_wraps (crypto : SubtleCrypto) (now : Z)
  (secret : string) (windowSeconds : Z) :
  0 < windowSeconds ->
  generateTOTP (now + 1000 * (2 ^ 32 * windowSeconds)) secret windowSeconds
  = generateTOTP now secret windowSeconds.
Proof.
  intros Hw. apply generateTOTP_counter_mod.
  rewrite !time_of_div, !epoch_of_div.
  replace (now + 1000 * (2 ^ 32 * windowSeconds) + 500)
    with (now + 500 + (2 ^ 32 * windowSeconds) * 1000) by lia.
  rewrite Z.div_add by lia.
  set (e := (now + 500) / 1000).
  rewrite Z.div_add by lia.
  replace (e / windowSeconds + 2 ^ 32) with (e / windowSeconds + 1 * 2 ^ 32)
    by lia.
  apply Z.mod_add. lia.
Qed.

Lemma generateTOTP_wraps_witness :
  @generateTOTP WebCrypto (59000 + 1000 * (2 ^ 32 * 30))
    "GEZDGNBVGY3TQOJQGEZDGNBVGY3TQOJQ" 30
  = Normal "287082"%string.
Proof.
  rewrite (generateTOTP_wraps WebCrypto 59000) by lia.
  vm_compute. reflexivity.
Defined.

Lemma be4_value (x : Z) :
  0 <= x < 2 ^ 32 ->
  match be_bytes 4 x with
  | [b0; b1; b2; b3] => ((b0 * 256 + b1) * 256 + b2) * 256 + b3
  | _ => -1
  end = x.
Proof.
  intros Hx. cbn [be_bytes].
  change (256 ^ Z.of_nat 3) with (256 * 256 * 256).
  change (256 ^ Z.of_nat 2) with (256 * 256).
  change (256 ^ Z.of_nat 1) with 256.
  change (256 ^ Z.of_nat 0) with 1.
  rewrite Z.div_1_r. rewrite <- !Z.div_div by lia.
  set (q1 := x / 256). set (q2 := q1 / 256). set (q3 := q2 / 256).
  pose proof (Z.div_mod x 256 ltac:(lia)) as E1. fold q1 in E1.
  pose proof (Z.div_mod q1 256 ltac:(lia)) as E2. fold q2 in E2.
  pose proof (Z.div_mod q2 256 ltac:(lia)) as E3. fold q3 in E3.
  pose proof (Z.mod_pos_bound x 256 ltac:(lia)).
  pose proof (Z.mod_pos_bound q1 256 ltac:(lia)).
  pose proof (Z.mod_pos_bound q2 256 ltac:(lia)).
  assert (0 <= q3 < 256) by lia.
  rewrite (Z.mod_small q3) by lia. lia.
Qed.

Lemma be_bytes_bytes (n : nat) (x : Z) : is_bytes (be_bytes n x).
Proof.
  induction n as [|n IH]; cbn [be_bytes]; [apply Forall_nil_2|].
  apply Forall_cons_2; [|exact IH]. apply Z.mod_pos_bound. lia.
Qed.

(** X7. The message handed to the HMAC is always eight bytes, the first
    four zero, and two messages are equal exactly when the two counters
    agree modulo 2^32: below 2^32 a different counter gives a different
    message. *)
Theorem counterBuffer_counter (now1 w1 now2 w2 : Z) :
  length (counterBuffer now1 w1) = 8%nat
  /\ is_bytes (counterBuffer now1 w1)
  /\ take 4 (counterBuffer now1 w1) = [0; 0; 0; 0]
  /\ (counterBuffer now1 w1 = counterBuffer now2 w2
      <-> time_of now1 w1 mod 2 ^ 32 = time_of now2 w2 mod 2 ^ 32).
Proof.
  rewrite !counterBuffer_low.
  split; [reflexivity|]. split; [|split; [reflexivity|]].
  - unfold is_bytes. apply Forall_app_2; [|apply be_bytes_bytes].
    repeat (apply Forall_cons_2; [lia|]). apply Forall_nil_2.
  - split; [|intros ->; reflexivity].
    intros Heq. apply app_inv_head in Heq.
    rewrite <- (be4_value (time_of now1 w1 mod 2 ^ 32))
      by (apply Z.mod_pos_bound; lia).
    rewrite <- (be4_value (time_of now2 w2 mod 2 ^ 32))
      by (apply Z.mod_pos_bound; lia).
    rewrite Heq. reflexivity.
Qed.

Lemma counterBuffer_counter_witness :
  counterBuffer 29000 30 <> counterBuffer 30000 30.
Proof.
  destruct (counterBuffer_counter 29000 30 30000 30) as (_ & _ & _ & [H _]).
  intros Heq. specialize (H Heq). vm_compute in H. discriminate H.
Defined.

(** ** Time remaining and the counter *)

Lemma getTimeRemaining_mod (now windowSeconds : Z) :
  0 <= epoch_of now ->
  0 < windowSeconds ->
  getTimeRemaining now windowSeconds
  = windowSeconds - epoch_of now mod windowSeconds.
Proof.
  intros He Hw. unfold getTimeRemaining, js_rem. fold (epoch_of now).
  rewrite Z.rem_mod_nonneg by lia. reflexivity.
Qed.

Lemma epoch_of_nonneg (now : Z) : 0 <= now -> 0 <= epoch_of now.
Proof. intros Hn. rewrite epoch_of_div. apply Z.div_pos; lia. Qed.

(** X8. The time remaining is the number of seconds until the counter of
    the generator changes: [epoch + remaining] is the first second of the
    next window. *)
Theorem getTimeRemaining_next_window (now windowSeconds : Z) :
  0 < windowSeconds -> 0 <= now ->
  epoch_of now + getTimeRemaining now windowSeconds
  = (time_of now windowSeconds + 1) * windowSeconds.
Proof.
  intros Hw Hnow. pose proof (epoch_of_nonneg now Hnow) as He.
  rewrite getTimeRemaining_mod, time_of_div by assumption.
  pose proof (Z.div_mod (epoch_of now) windowSeconds ltac:(lia)). lia.
Qed.

Lemma getTimeRemaining_next_window_witness :
  epoch_of 59000 + getTimeRemaining 59000 30 = (time_of 59000 30 + 1) * 30.
Proof. apply getTimeRemaining_next_window; lia. Defined.

(** X9. One second later the time remaining is one less, except at 1,
    where it starts again from the window length. *)
Theorem getTimeRemaining_countdown (now windowSeconds : Z) :
  0 < windowSeconds -> 0 <= now ->
  getTimeRemaining (now + 1000) windowSeconds
  = if getTimeRemaining now windowSeconds =? 1
    then windowSeconds
    else getTimeRemaining now windowSeconds - 1.
Proof.
  intros Hw Hnow. pose proof (epoch_of_nonneg now Hnow) as He.
  assert (He1 : epoch_of (now + 1000) = epoch_of now + 1).
  { rewrite !epoch_of_div.
    replace (now + 1000 + 500) with (now + 500 + 1 * 1000) by lia.
    apply Z.div_add. lia. }
  rewrite !getTimeRemaining_mod by lia. rewrite He1.
  set (e := epoch_of now) in *.
  pose proof (Z.mod_pos_bound e windowSeconds Hw) as Hm.
  pose proof (Z.div_mod e windowSeconds ltac:(lia)) as Hdm.
  destruct (windowSeconds - e mod windowSeconds =? 1) eqn:E.
  - apply Z.eqb_eq in E.
    replace ((e + 1) mod windowSeconds) with 0; [lia|].
    symmetry. apply Z.mod_divide; [lia|].
    exists (e / windowSeconds + 1). lia.
  - apply Z.eqb_neq in E.
    replace ((e + 1) mod windowSeconds) with (e mod windowSeconds + 1); [lia|].
    apply (Z.mod_unique_pos _ _ (e / windowSeconds)); lia.
Qed.

Lemma getTimeRemaining_countdown_witness :
  getTimeRemaining (59000 + 1000) 30 = 30
  /\ getTimeRemaining (60000 + 1000) 30 = 29.
Proof.
  split.
  - rewrite (getTimeRemaining_countdown 59000 30) by lia. reflexivity.
  - rewrite (getTimeRemaining_countdown 60000 30) by lia. reflexivity.
Defined.

(** X10. Before the Unix epoch the remainder takes the sign of the
    (negative) rounded clock, and the result is no longer within the
    window: it lies in [window, 2 * window). *)
Theorem getTimeRemaining_before_epoch (now windowSeconds : Z) :
  0 < windowSeconds -> epoch_of now < 0 ->
  windowSeconds <= getTimeRemaining now windowSeconds < 2 * windowSeconds.
Proof.
  intros Hw He. unfold getTimeRemaining, js_rem. fold (epoch_of now).
  pose proof (Z.rem_bound_pos (- epoch_of now) windowSeconds ltac:(lia) Hw)
    as Hb.
  rewrite Z.rem_opp_l in Hb by lia. lia.
Qed.

Lemma getTimeRemaining_before_epoch_witness :
  30 <= getTimeRemaining (-1000) 30 < 2 * 30.
Proof.
  apply getTimeRemaining_before_epoch; [lia | vm_compute; reflexivity].
Defined.

(** ** The form that adds an account *)

Lemma chars_append (a b : string) :
  chars (String.append a b) = chars a ++ chars b.
Proof.
  induction a as [|c a IH]; [reflexivity|].
  change (String.append (String c a) b) with (String c (String.append a b)).
  cbn [chars list_ascii_of_string]. fold (chars (String.append a b)).
  fold (chars a). rewrite IH. reflexivity.
Qed.

Lemma upper_char_idem (c : ascii) : upper_char (upper_char c) = upper_char c.
Proof. each_char c; reflexivity. Qed.

Lemma is_space_upper (c : ascii) : is_space (upper_char c) = is_space c.
Proof. each_char c; reflexivity. Qed.



Lemma upper_class_alphabet (c : ascii) :
  in_class (upper_char c) = true -> is_alphabet (upper_char c) = true.
Proof. each_char c; congruence. Qed.

Lemma alphabet_upper (c : ascii) : is_alphabet c = true -> upper_char c = c.
Proof. each_char c; congruence. Qed.

Lemma alphabet_not_space (c : ascii) : is_alphabet c = true -> is_space c = false.
Proof. each_char c; congruence. Qed.

Lemma alphabet_not_pad (c : ascii) : is_alphabet c = true -> is_pad c = false.
Proof. each_char c; congruence. Qed.

Lemma pad_upper (c : ascii) : is_pad c = true -> upper_char c = c.
Proof. each_char c; congruence. Qed.

Lemma remove_spaces_upper (t : string) :
  remove_spaces (toUpperCase t) = toUpperCase (remove_spaces t).
Proof.
  induction t as [|c t IH]; [reflexivity|].
  cbn [toUpperCase remove_spaces]. rewrite is_space_upper.
  destruct (is_space c); [exact IH|].
  cbn [toUpperCase]. rewrite IH. reflexivity.
Qed.

Lemma remove_spaces_idem (t : string) :
  remove_spaces (remove_spaces t) = remove_spaces t.
Proof.
  induction t as [|c t IH]; [reflexivity|].
  cbn [remove_spaces]. destruct (is_space c) eqn:E; [exact IH|].
  cbn [remove_spaces]. rewrite E, IH. reflexivity.
Qed.








Lemma isValidBase32_regex (x : string) :
  isValidBase32 (Some x) = regex_test (remove_spaces x).
Proof.
  cbn [isValidBase32]. destruct x as [|c x]; [reflexivity|].
  replace (str_length (String c x) =? 0) with false; [reflexivity|].
  symmetry. apply Z.eqb_neq. unfold str_length. cbn [String.length]. lia.
Qed.


Lemma upper_chars_fixed (t : string) :
  Forall (fun d => upper_char d = d) (chars (toUpperCase t)).
Proof.
  induction t as [|c t IH]; [apply Forall_nil_2|].
  cbn [toUpperCase chars list_ascii_of_string]. fold (chars (toUpperCase t)).
  apply Forall_cons_2; [apply upper_char_idem | exact IH].
Qed.

(** A cleaned secret that the validator accepts is in clean form. *)
Lemma secretClean_accepted (input : string) :
  isValidBase32 (Some (App.secretClean input)) = true ->
  clean_secret (App.secretClean input).
Proof.
  intros Hv.
  assert (Hr : regex_test (App.secretClean input) = true).
  { rewrite isValidBase32_regex in Hv. unfold App.secretClean in *.
    rewrite remove_spaces_upper, remove_spaces_idem in Hv. exact Hv. }
  apply regex_test_split in Hr as (body & pad & Heq & Hne & Hb & Hp).
  exists body, pad. repeat apply conj; try assumption.
  pose proof (upper_chars_fixed (remove_spaces (trim input))) as Hup.
  fold (App.secretClean input) in Hup.
  rewrite Heq, chars_append in Hup. apply Forall_app in Hup as [Hup _].
  clear Heq. revert Hb Hup. generalize (chars body). intros cs.
  induction cs as [|d cs IH]; intros Hb Hup; [reflexivity|].
  cbn [forallb] in *. apply andb_prop in Hb as [Hd Hb].
  apply Forall_cons in Hup as [Hfix Hup].
  rewrite (IH Hb Hup), andb_true_r.
  rewrite <- Hfix. apply upper_class_alphabet. rewrite Hfix. exact Hd.
Qed.



Lemma toUpperCase_clean (body pad : string) :
  forallb is_alphabet (chars body) = true -> all_pad pad = true ->
  toUpperCase (String.append body pad) = String.append body pad.
Proof.
  intros Hb Hp. induction body as [|c body IH].
  - change (String.append EmptyString pad) with pad. clear Hb.
    induction pad as [|c pad IH]; [reflexivity|].
    cbn [all_pad] in Hp. apply andb_prop in Hp as [Hc Hp].
    cbn [toUpperCase]. rewrite (pad_upper c Hc), (IH Hp). reflexivity.
  - cbn [chars list_ascii_of_string forallb] in Hb. fold (chars body) in Hb.
    apply andb_prop in Hb as [Hc Hb].
    change (String.append (String c body) pad)
      with (String c (String.append body pad)).
    cbn [toUpperCase]. rewrite (alphabet_upper c Hc), (IH Hb). reflexivity.
Qed.

Lemma remove_trailing_pad_all_pad (pad : string) :
  all_pad pad = true -> remove_trailing_pad pad = EmptyString.
Proof. destruct pad as [|c pad]; [reflexivity|]. cbn [remove_trailing_pad]. intros ->. reflexivity. Qed.

Lemma remove_trailing_pad_clean (body pad : string) :
  forallb is_alphabet (chars body) = true -> all_pad pad = true ->
  remove_trailing_pad (String.append body pad) = body.
Proof.
  intros Hb Hp. induction body as [|c body IH].
  - apply remove_trailing_pad_all_pad, Hp.
  - cbn [chars list_ascii_of_string forallb] in Hb. fold (chars body) in Hb.
    apply andb_prop in Hb as [Hc Hb].
    change (String.append (String c body) pad)
      with (String c (String.append body pad)).
    cbn [remove_trailing_pad all_pad].
    rewrite (alphabet_not_pad c Hc). cbn [andb]. rewrite (IH Hb). reflexivity.
Qed.

Lemma remove_spaces_alphabet (body : string) :
  forallb is_alphabet (chars body) = true -> remove_spaces body = body.
Proof.
  induction body as [|c body IH]; [reflexivity|].
  cbn [chars list_ascii_of_string forallb]. fold (chars body).
  intros Hb. apply andb_prop in Hb as [Hc Hb].
  cbn [remove_spaces]. rewrite (alphabet_not_space c Hc), (IH Hb). reflexivity.
Qed.

Lemma cleanStr_clean (body pad : string) :
  forallb is_alphabet (chars body) = true -> all_pad pad = true ->
  cleanStr (String.append body pad) = body.
Proof.
  intros Hb Hp. unfold cleanStr.
  rewrite toUpperCase_clean, remove_trailing_pad_clean by assumption.
  apply remove_spaces_alphabet, Hb.
Qed.

Lemma filter_all (cs : list ascii) :
  forallb is_alphabet cs = true -> List.filter is_alphabet cs = cs.
Proof.
  induction cs as [|c cs IH]; [reflexivity|].
  cbn [forallb List.filter]. intros H. apply andb_prop in H as [Hc Hcs].
  rewrite Hc, (IH Hcs). reflexivity.
Qed.

Lemma clean_decodes (s : string) :
  clean_secret s -> str_length s < 2 ^ 30 ->
  base32ToBuffer s = base32_decode s
  /\ Z.of_nat (length (base32ToBuffer s)) = 5 * Z.of_nat (valid_count s) / 8.
Proof.
  intros (body & pad & -> & _ & Hb & Hp) Hlen.
  pose proof (cleanStr_clean body pad Hb Hp) as Hclean.
  assert (Hsize : str_length (cleanStr (String.append body pad)) * 5 / 8 < 2 ^ 31).
  { rewrite Hclean. unfold str_length in *. rewrite length_append in Hlen.
    apply Z.div_lt_upper_bound; lia. }
  assert (Hex : base32ToBuffer (String.append body pad)
                = base32_decode (String.append body pad)).
  { apply decoder_exact; [exact Hsize|]. rewrite Hclean. exact Hb. }
  split; [exact Hex|].
  rewrite Hex, base32_decode_length. unfold valid_count.
  rewrite <- filter_cleanStr_normalize, Hclean.
  rewrite chars_append, List.filter_app, (filter_all _ Hb).
  rewrite (filter_all_pad pad Hp), app_nil_r. reflexivity.
Qed.

(** X12. On a secret in the clean form the form stores, the decoder
    returns exactly the reference decode, [floor (5 n / 8)] bytes for
    [n] alphabet characters: no zero byte is appended. *)
Theorem clean_secret_decodes (s : string) :
  clean_secret s -> str_length s < 2 ^ 30 ->
  base32ToBuffer s = base32_decode s
  /\ Z.of_nat (length (base32ToBuffer s)) = 5 * Z.of_nat (valid_count s) / 8.
Proof. exact (clean_decodes s). Qed.

Lemma clean_secret_decodes_witness :
  base32ToBuffer "JBSWY3DP======" = base32_decode "JBSWY3DP======".
Proof.
  apply (clean_secret_decodes "JBSWY3DP======").
  - exists "JBSWY3DP"%string, "======"%string.
    repeat apply conj; [reflexivity | discriminate | reflexivity | reflexivity].
  - vm_compute. reflexivity.
Defined.

Lemma filter_clean (P : App.Account -> bool) (l : list App.Account) :
  Forall (fun a => clean_secret (App.secret a)) l ->
  Forall (fun a => clean_secret (App.secret a)) (List.filter P l).
Proof.
  induction l as [|a l IH]; intros H; [apply Forall_nil_2|].
  apply Forall_cons in H as [Ha Hl]. cbn [List.filter].
  destruct (P a); [apply Forall_cons_2|]; auto.
Qed.

(** X13. If every stored secret is in clean form, it is still so after a
    submission of the form and after a deletion, whatever the inputs. *)
Theorem accounts_stay_clean (uuid target : string) (dateNow : Z)
  (confirmed : bool) (st : App.State) :
  Forall (fun a => clean_secret (App.secret a)) (App.accounts st) ->
  Forall (fun a => clean_secret (App.secret a))
    (App.accounts (App.handleAddAccount uuid dateNow st))
  /\ Forall (fun a => clean_secret (App.secret a))
       (App.accounts (App.deleteAccount target confirmed st)).
Proof.
  intros Hall. split.
  - unfold App.handleAddAccount. cbv zeta.
    cbn [App.setErrorMsg App.issuerInput App.secretInput].
    destruct (truthy (trim (App.issuerInput st))); cbn [negb]; [|exact Hall].
    destruct (truthy (App.secretClean (App.secretInput st)));
      cbn [negb orb]; [|exact Hall].
    destruct (isValidBase32 (Some (App.secretClean (App.secretInput st))))
      eqn:Hv; cbn [negb]; [|exact Hall].
    cbn. apply Forall_app_2; [exact Hall|].
    apply Forall_cons_2; [|apply Forall_nil_2].
    cbn [App.secret]. apply secretClean_accepted, Hv.
  - unfold App.deleteAccount. destruct confirmed; [|exact Hall].
    cbv zeta.
    destruct (Z.of_nat (length (App.accounts st)) =? 1); cbn;
      apply filter_clean, Hall.
Qed.

Lemma accounts_stay_clean_witness :
  Forall (fun a => clean_secret (App.secret a))
    (App.accounts
       (App.handleAddAccount "id-1" 0
          {| App.accounts := []; App.codes := ∅; App.timeLeft := 30;
             App.issuerInput := " GitHub "; App.secretInput := "jbsw y3dp";
             App.isAdding := true; App.errorMsg := EmptyString;
             App.insight := None |})).
Proof.
  apply (accounts_stay_clean "id-1" "id-1" 0 true). apply Forall_nil_2.
Defined.

(** ** Codes on display *)

Lemma generateTOTP_result (crypto : SubtleCrypto) (now : Z) (secret : string)
  (windowSeconds : Z) :
  exists s : string,
    generateTOTP now secret windowSeconds = Normal s
    /\ (s = "INVALID"%string \/ s = "ERROR"%string \/ is_code s).
Proof.
  destruct (base32ToBuffer secret) as [|b key] eqn:E.
  - exists "INVALID"%string. split; [|left; reflexivity].
    apply generateTOTP_empty_key, E.
  - assert (Hne : base32ToBuffer secret <> []) by (rewrite E; discriminate).
    destruct (hmacSha1 (base32ToBuffer secret)
                (counterBuffer now windowSeconds)) as [d | e] eqn:Hm.
    + exists (padStart (Number_toString (otp_of d)) 6 "0"). split.
      * apply generateTOTP_digest; assumption.
      * right; right. apply code_string_spec, otp_of_range.
    + exists "ERROR"%string. split; [|right; left; reflexivity].
      apply (generateTOTP_hash_failure _ _ _ _ e Hne Hm).
Qed.

Lemma updateCodes_loop_spec (crypto : SubtleCrypto) (clock : nat -> Z)
  (accs : list App.Account) :
  forall (n : nat) (m : gmap.gmap string string),
  exists m' : gmap.gmap string string,
    App.updateCodes_loop clock n accs m = Normal m'
    /\ (forall k : string,
          (forall a, In a accs -> App.id a <> k) -> m' !! k = m !! k)
    /\ (forall k : string,
          is_Some (m' !! k)
          <-> is_Some (m !! k) \/ exists a, In a accs /\ App.id a = k)
    /\ (forall (i : nat) (a : App.Account),
          accs !! i = Some a ->
          (forall (j : nat) (b : App.Account),
             accs !! j = Some b -> App.id b = App.id a -> (j <= i)%nat) ->
          exists c : string,
            generateTOTP (clock (n + i)%nat) (App.secret a) 30 = Normal c
            /\ m' !! App.id a = Some c).
Proof.
  induction accs as [|acc rest IH]; intros n m.
  - exists m. cbn [App.updateCodes_loop]. repeat apply conj.
    + reflexivity.
    + reflexivity.
    + intros k. split; [auto|]. intros [H | (a & [] & _)]. exact H.
    + intros i a Hi. destruct i; discriminate Hi.
  - cbn [App.updateCodes_loop].
    destruct (generateTOTP_result crypto (clock n) (App.secret acc) 30)
      as (c0 & Hc0 & _).
    rewrite Hc0. cbn [bind].
    destruct (IH (S n) (<[App.id acc := c0]> m))
      as (m' & Hrun & Hkeep & Hdom & Hlast).
    exists m'. repeat apply conj.
    + exact Hrun.
    + intros k Hk. rewrite Hkeep.
      * apply fin_maps.lookup_insert_ne. apply Hk. left. reflexivity.
      * intros a Ha. apply Hk. right. exact Ha.
    + intros k. rewrite Hdom. split.
      * intros [Hs | (a & Ha & Hid)].
        -- destruct (decide (App.id acc = k)) as [Heq | Hneq].
           ++ right. exists acc. split; [left; reflexivity | exact Heq].
           ++ left. rewrite fin_maps.lookup_insert_ne in Hs by exact Hneq.
              exact Hs.
        -- right. exists a. split; [right; exact Ha | exact Hid].
      * intros [Hs | (a & [<- | Ha] & Hid)].
        -- left. destruct (decide (App.id acc = k)) as [<- | Hneq].
           ++ rewrite fin_maps.lookup_insert_eq. eauto.
           ++ rewrite fin_maps.lookup_insert_ne by exact Hneq. exact Hs.
        -- left. rewrite Hid, fin_maps.lookup_insert_eq. eauto.
        -- right. exists a. split; assumption.
    + intros i a Hi Hmax. destruct i as [|i].
      * cbn in Hi. injection Hi as <-. exists c0.
        rewrite Nat.add_0_r. split; [exact Hc0|].
        rewrite Hkeep; [apply fin_maps.lookup_insert_eq|].
        intros b Hb Hid.
        apply list_elem_of_In, list_elem_of_lookup in Hb as [j Hj].
        specialize (Hmax (S j) b Hj Hid). lia.
      * cbn in Hi.
        destruct (Hlast i a Hi) as (c & Hc & Hm').
        { intros j b Hj Hid. specialize (Hmax (S j) b Hj Hid). lia. }
        exists c. split; [|exact Hm'].
        replace (n + S i)%nat with (S n + i)%nat by lia. exact Hc.
Qed.

(** X14. Refreshing the codes never fails and keeps the accounts; the new
    table has an entry exactly for the ids of the accounts, and the entry
    of an account (the last one, if several share an id) is what the
    generator returned for its secret at its reading of the clock. *)
Theorem updateCodes_table (crypto : SubtleCrypto) (clock : nat -> Z)
  (st : App.State) :
  exists st' : App.State,
    App.updateCodes clock st = Normal st'
    /\ App.accounts st' = App.accounts st
    /\ (forall k : string,
          is_Some (App.codes st' !! k)
          <-> exists a, In a (App.accounts st) /\ App.id a = k)
    /\ (forall (i : nat) (a : App.Account),
          App.accounts st !! i = Some a ->
          (forall (j : nat) (b : App.Account),
             App.accounts st !! j = Some b -> App.id b = App.id a ->
             (j <= i)%nat) ->
          exists c : string,
            generateTOTP (clock i) (App.secret a) 30 = Normal c
            /\ App.codes st' !! App.id a = Some c
            /\ (c = "INVALID"%string \/ c = "ERROR"%string \/ is_code c)).
Proof.
  unfold App.updateCodes.
  destruct (updateCodes_loop_spec crypto clock (App.accounts st) 0 ∅)
    as (m' & Hrun & _ & Hdom & Hlast).
  rewrite Hrun. cbn [bind]. cbv zeta.
  eexists. split; [reflexivity|]. cbn [App.setTimeLeft App.setCodes
    App.accounts App.codes].
  repeat apply conj.
  - reflexivity.
  - intros k. rewrite Hdom. split.
    + intros [Hs | H]; [|exact H].
      rewrite fin_maps.lookup_empty in Hs. destruct Hs as [x Hx].
      discriminate Hx.
    + intros H. right. exact H.
  - intros i a Hi Hmax. destruct (Hlast i a Hi Hmax) as (c & Hc & Hm').
    exists c. cbn in Hc. repeat apply conj; [exact Hc | exact Hm' |].
    destruct (generateTOTP_result crypto (clock i) (App.secret a) 30)
      as (c' & Hc' & Hshape).
    rewrite Hc in Hc'. injection Hc' as <-. exact Hshape.
Qed.

Lemma updateCodes_table_witness :
  exists st' : App.State,
    @App.updateCodes WebCrypto (fun _ => 59000)
      {| App.accounts :=
           [ {| App.id := "id-1"; App.issuer := "RFC";
                App.accountName := "User";
                App.secret := "GEZDGNBVGY3TQOJQGEZDGNBVGY3TQOJQ";
                App.addedAt := 0 |} ];
         App.codes := ∅; App.timeLeft := 30;
         App.issuerInput := EmptyString; App.secretInput := EmptyString;
         App.isAdding := false; App.errorMsg := EmptyString;
         App.insight := None |} = Normal st'
    /\ App.codes st' !! "id-1"%string = Some "287082"%string.
Proof.
  destruct (updateCodes_table WebCrypto (fun _ => 59000)
    {| App.accounts :=
         [ {| App.id := "id-1"; App.issuer := "RFC";
              App.accountName := "User";
              App.secret := "GEZDGNBVGY3TQOJQGEZDGNBVGY3TQOJQ";
              App.addedAt := 0 |} ];
       App.codes := ∅; App.timeLeft := 30;
       App.issuerInput := EmptyString; App.secretInput := EmptyString;
       App.isAdding := false; App.errorMsg := EmptyString;
       App.insight := None |}) as (st' & Hrun & _ & _ & Hlast).
  exists st'. split; [exact Hrun|].
  destruct (Hlast 0%nat _ eq_refl) as (c & Hc & Hm & _).
  - intros [|j] b Hj _; [lia|]. destruct j; discriminate Hj.
  - cbn [App.secret App.id] in Hc, Hm. rewrite Hm. f_equal.
    assert (Hv : @generateTOTP WebCrypto 59000
                   "GEZDGNBVGY3TQOJQGEZDGNBVGY3TQOJQ" 30
                 = Normal "287082"%string) by (vm_compute; reflexivity).
    rewrite Hv in Hc. injection Hc as <-. reflexivity.
Defined.

Lemma string_length_6 (s : string) :
  String.length s = 6%nat ->
  exists a b c d e f : ascii,
    s = String a (String b (String c (String d (String e (String f
          EmptyString))))).
Proof.
  intros H.
  destruct s as [|a [|b [|c [|d [|e [|f [|g s]]]]]]]; try discriminate H.
  eauto 7.
Qed.

(** The display of a code: a missing entry and every string whose
    length is not 6 show as ["--- ---"]; a string of six characters shows
    as its first three characters, a space, and its last three. *)
Theorem formatCode_display :
  App.formatCode None = "--- ---"%string
  /\ (forall s : string,
        String.length s <> 6%nat ->
        App.formatCode (Some s) = "--- ---"%string)
  /\ (forall a b c d e f : ascii,
        App.formatCode
          (Some (String a (String b (String c (String d (String e (String f
             EmptyString)))))))
        = String a (String b (String c (String " " (String d (String e
            (String f EmptyString))))))).
Proof.
  split; [reflexivity|]. split.
  - intros s Hs. unfold App.formatCode.
    destruct (truthy s); cbn [negb orb]; [|reflexivity].
    replace (str_length s =? 6) with false; [reflexivity|].
    symmetry. apply Z.eqb_neq. unfold str_length. lia.
  - intros a b c d e f. reflexivity.
Qed.

Lemma formatCode_display_witness :
  App.formatCode (Some "INVALID"%string) = "--- ---"%string
  /\ App.formatCode (Some "ERROR"%string) = "--- ---"%string
  /\ App.formatCode (Some "287082"%string) = "287 082"%string.
Proof.
  destruct formatCode_display as (_ & Hother & Hsix).
  repeat apply conj.
  - apply Hother. discriminate.
  - apply Hother. discriminate.
  - apply (Hsix "2" "8" "7" "0" "8" "2")%char.
Defined.

(** X15. Whatever the generator returns is displayed either as
    ["--- ---"], and that exactly for ["INVALID"] and ["ERROR"], or as the
    six digits of the code with a space in the middle. *)
Theorem formatCode_generateTOTP (crypto : SubtleCrypto) (now : Z)
  (secret : string) (windowSeconds : Z) :
  exists r : string,
    generateTOTP now secret windowSeconds = Normal r
    /\ (((r = "INVALID"%string \/ r = "ERROR"%string)
         /\ App.formatCode (Some r) = "--- ---"%string)
        \/ (exists a b c d e f : ascii,
              r = String a (String b (String c (String d (String e (String f
                    EmptyString)))))
              /\ all_digits r = true
              /\ App.formatCode (Some r)
                 = String a (String b (String c (String " " (String d
                     (String e (String f EmptyString))))))
              /\ App.formatCode (Some r) <> "--- ---"%string)).
Proof.
  destruct (generateTOTP_result crypto now secret windowSeconds)
    as (r & Hr & [-> | [-> | [Hlen Hdig]]]).
  - exists "INVALID"%string. split; [exact Hr|]. left. split; [auto | reflexivity].
  - exists "ERROR"%string. split; [exact Hr|]. left. split; [auto | reflexivity].
  - exists r. split; [exact Hr|]. right.
    destruct (string_length_6 r Hlen) as (a & b & c & d & e & f & ->).
    exists a, b, c, d, e, f. repeat apply conj; [reflexivity | exact Hdig | reflexivity |].
    change (App.formatCode _)
      with (String a (String b (String c (String " " (String d (String e
              (String f EmptyString))))))).
    intros Heq. injection Heq as -> _.
    cbn [all_digits] in Hdig. apply andb_prop in Hdig as [Hd _].
    discriminate Hd.
Qed.

(** ** The timer *)

Lemma getTimeRemaining_full (now windowSeconds : Z) :
  0 < windowSeconds -> 0 <= now ->
  getTimeRemaining now windowSeconds = windowSeconds
  <-> epoch_of now mod windowSeconds = 0.
Proof.
  intros Hw Hnow.
  rewrite getTimeRemaining_mod by (try apply epoch_of_nonneg; assumption).
  lia.
Qed.

Lemma counter_changes (e w : Z) :
  0 < w -> e mod w = 0 <-> e / w <> (e - 1) / w.
Proof.
  intros Hw.
  pose proof (Z.div_mod e w ltac:(lia)) as Hdm.
  pose proof (Z.mod_pos_bound e w Hw) as Hm.
  split.
  - intros H0.
    assert ((e - 1) / w = e / w - 1).
    { symmetry. apply (Z.div_unique_pos _ _ _ (w - 1)); lia. }
    lia.
  - intros Hne. destruct (Z.eq_dec (e mod w) 0) as [H0 | Hpos]; [exact H0|].
    exfalso. apply Hne.
    apply (Z.div_unique_pos _ _ _ (e mod w - 1)); lia.
Qed.

(** X16. A tick of the timer never fails and keeps the accounts.  It
    recomputes the codes exactly when its second reading of the clock
    rounds to the first second of a 30-second window, that is, when the
    counter of the generator differs from the counter one second earlier;
    otherwise it only sets the time left. *)
Theorem timer_tick_refresh (crypto : SubtleCrypto) (clock : nat -> Z)
  (st : App.State) :
  0 <= clock 1%nat ->
  exists st' : App.State,
    App.timer_tick clock st = Normal st'
    /\ App.accounts st' = App.accounts st
    /\ (time_of (clock 1%nat) 30 = time_of (clock 1%nat - 1000) 30 ->
        st' = App.setTimeLeft (getTimeRemaining (clock 0%nat) 30) st)
    /\ (time_of (clock 1%nat) 30 <> time_of (clock 1%nat - 1000) 30 ->
        App.updateCodes (fun n => clock (2 + n)%nat)
          (App.setTimeLeft (getTimeRemaining (clock 0%nat) 30) st)
        = Normal st').
Proof.
  intros Hclock. unfold App.timer_tick. cbv zeta.
  assert (He : epoch_of (clock 1%nat - 1000) = epoch_of (clock 1%nat) - 1).
  { rewrite !epoch_of_div.
    replace (clock 1%nat - 1000 + 500)
      with (clock 1%nat + 500 + (-1) * 1000) by lia.
    rewrite Z.div_add by lia. lia. }
  pose proof (counter_changes (epoch_of (clock 1%nat)) 30 ltac:(lia)) as Hch.
  rewrite <- He, <- !time_of_div in Hch.
  pose proof (getTimeRemaining_full (clock 1%nat) 30 ltac:(lia) Hclock) as Hfull.
  destruct (getTimeRemaining (clock 1%nat) 30 =? 30) eqn:E.
  - apply Z.eqb_eq in E. apply Hfull, Hch in E.
    destruct (updateCodes_loop_spec crypto (fun n => clock (2 + n)%nat)
                (App.accounts st) 0 ∅) as (m' & Hrun & _).
    unfold App.updateCodes. cbn [App.setTimeLeft App.accounts].
    rewrite Hrun. cbn [bind]. cbv zeta.
    eexists. split; [reflexivity|]. split; [reflexivity|].
    split; [intros Hsame; contradiction | reflexivity].
  - apply Z.eqb_neq in E.
    eexists. split; [reflexivity|]. split; [reflexivity|].
    split; [reflexivity|].
    intros Hne. exfalso. apply E, Hfull, Hch, Hne.
Qed.

Lemma timer_tick_refresh_witness :
  exists st' : App.State,
    @App.timer_tick WebCrypto (fun _ => 59000)
      {| App.accounts := []; App.codes := ∅; App.timeLeft := 30;
         App.issuerInput := EmptyString; App.secretInput := EmptyString;
         App.isAdding := false; App.errorMsg := EmptyString;
         App.insight := None |} = Normal st'
    /\ App.timeLeft st' = 1.
Proof.
  destruct (timer_tick_refresh WebCrypto (fun _ => 59000)
    {| App.accounts := []; App.codes := ∅; App.timeLeft := 30;
       App.issuerInput := EmptyString; App.secretInput := EmptyString;
       App.isAdding := false; App.errorMsg := EmptyString;
       App.insight := None |} ltac:(lia)) as (st' & Hrun & _ & Hsame & _).
  exists st'. split; [exact Hrun|].
  rewrite Hsame by (vm_compute; reflexivity). reflexivity.
Defined.

(** ** The insight service *)

Lemma truthy_nonempty (s : string) : truthy s = true -> s <> EmptyString.
Proof. intros H ->. discriminate H. Qed.

Lemma getSecurityInsight_answer (service : Gemini.GoogleGenAI)
  (API_KEY : completion (option string)) (aiClient : option Gemini.Client)
  (name : string) :
  exists text : string,
    fst (Gemini.getSecurityInsight API_KEY aiClient name) = Normal text
    /\ text <> EmptyString.
Proof.
  unfold Gemini.getSecurityInsight.
  destruct (Gemini.getClient API_KEY aiClient) as [[c | e] aiClient'];
    cbn [fst try_catch bind].
  - destruct (Gemini.generateContent c Gemini.model (Gemini.prompt name))
      as [[text |] | e]; cbn [try_catch bind].
    + destruct (truthy text) eqn:E; eexists; (split; [reflexivity|]);
        [apply truthy_nonempty, E | discriminate].
    + eexists. split; [reflexivity | discriminate].
    + eexists. split; [reflexivity | discriminate].
  - eexists. split; [reflexivity | discriminate].
Qed.

(** X17. Asking for an insight never fails and never answers with the
    empty string, whatever the service does; the text of the service is
    returned when there is one and it is not empty; and a client that
    exists is kept and used without making another. *)
Theorem getSecurityInsight_total (service : Gemini.GoogleGenAI)
  (API_KEY : completion (option string)) (aiClient : option Gemini.Client)
  (name : string) :
  (exists text : string,
     fst (Gemini.getSecurityInsight API_KEY aiClient name) = Normal text
     /\ text <> EmptyString)
  /\ (forall (c : Gemini.Client) (text : string),
        aiClient = Some c ->
        Gemini.generateContent c Gemini.model (Gemini.prompt name)
        = Normal (Some text) ->
        text <> EmptyString ->
        Gemini.getSecurityInsight API_KEY aiClient name
        = (Normal text, Some c))
  /\ (forall c : Gemini.Client,
        aiClient = Some c ->
        snd (Gemini.getSecurityInsight API_KEY aiClient name) = Some c).
Proof.
  split; [apply getSecurityInsight_answer|]. split.
  - intros c text -> Hgen Hne. unfold Gemini.getSecurityInsight.
    cbn [Gemini.getClient bind try_catch]. rewrite Hgen. cbn [bind try_catch].
    destruct text as [|a text]; [congruence | reflexivity].
  - intros c ->. reflexivity.
Qed.


Lemma getSecurityInsight_total_witness :
  @Gemini.getSecurityInsight EchoService (Normal None) (Some tt) "GitHub"
  = (Normal (Gemini.prompt "GitHub"), Some tt).
Proof.
  destruct (getSecurityInsight_total EchoService (Normal None) (Some tt)
              "GitHub") as (_ & Hecho & _).
  apply Hecho; [reflexivity | reflexivity | discriminate].
Defined.

(** ** Sentinels *)

Lemma clean_valid_count (s : string) : clean_secret s -> (1 <= valid_count s)%nat.
Proof.
  intros (body & pad & -> & Hne & Hb & Hp). unfold valid_count.
  rewrite chars_append, List.filter_app, (filter_all _ Hb).
  destruct body as [|c body]; [congruence|].
  cbn [chars list_ascii_of_string]. rewrite length_app. cbn [length]. lia.
Qed.

(** X20. A secret the validator and the form accept can still be too
    short for a key: on a secret in clean form the generator answers
    ["INVALID"] exactly when the secret has a single alphabet character. *)
Theorem generateTOTP_INVALID_clean (crypto : SubtleCrypto) (now : Z)
  (secret : string) (windowSeconds : Z) :
  clean_secret secret -> str_length secret < 2 ^ 30 ->
  generateTOTP now secret windowSeconds = Normal "INVALID"%string
  <-> valid_count secret = 1%nat.
Proof.
  intros Hclean Hlen. rewrite generateTOTP_INVALID_iff.
  destruct (clean_decodes secret Hclean Hlen) as [_ Hl].
  pose proof (clean_valid_count secret Hclean) as Hpos.
  set (n := valid_count secret) in *.
  split.
  - intros Hnil. rewrite Hnil in Hl. cbn [length] in Hl.
    destruct (Nat.le_gt_cases n 1) as [Hle | Hgt]; [lia|].
    assert (1 <= 5 * Z.of_nat n / 8) by (apply Z.div_le_lower_bound; lia).
    lia.
  - intros Hn. rewrite Hn in Hl. change (5 * Z.of_nat 1 / 8) with 0 in Hl.
    destruct (base32ToBuffer secret); [reflexivity | cbn [length] in Hl; lia].
Qed.

Lemma generateTOTP_INVALID_clean_witness :
  isValidBase32 (Some "A="%string) = true
  /\ @generateTOTP WebCrypto 59000 "A=" 30 = Normal "INVALID"%string.
Proof.
  split; [reflexivity|].
  assert (Hclean : clean_secret "A=").
  { exists "A"%string, "="%string.
    repeat apply conj; [reflexivity | discriminate | reflexivity | reflexivity]. }
  assert (Hlen : str_length "A=" < 2 ^ 30) by (vm_compute; reflexivity).
  destruct (generateTOTP_INVALID_clean WebCrypto 59000 "A=" 30 Hclean Hlen)
    as [_ Hback].
  apply Hback. reflexivity.
Defined.

(** X21. The generator answers ["ERROR"] exactly when the key is not
    empty and importing the key or signing the counter is rejected. *)
Theorem generateTOTP_ERROR_iff (crypto : SubtleCrypto) (now : Z)
  (secret : string) (windowSeconds : Z) :
  generateTOTP now secret windowSeconds = Normal "ERROR"%string
  <-> base32ToBuffer secret <> []
      /\ ((exists e : string, importKey (base32ToBuffer secret) = Throw e)
          \/ (exists (k : CryptoKey) (e : string),
                importKey (base32ToBuffer secret) = Normal k
                /\ sign k (counterBuffer now windowSeconds) = Throw e)).
Proof.
  split.
  - intros Herr.
    destruct (base32ToBuffer secret) as [|b key] eqn:E.
    + rewrite (generateTOTP_empty_key _ _ _ _ E) in Herr. discriminate Herr.
    + split; [discriminate|].
      assert (Hne : base32ToBuffer secret <> []) by (rewrite E; discriminate).
      destruct (hmacSha1 (base32ToBuffer secret)
                  (counterBuffer now windowSeconds)) as [d | e] eqn:Hm.
      * rewrite (generateTOTP_digest _ _ _ _ d Hne Hm) in Herr.
        injection Herr as Herr.
        destruct (code_string_spec _ (otp_of_range d)) as [Hcode _].
        rewrite Herr in Hcode. destruct (is_code_not_ERROR Hcode).
      * rewrite E in Hm. unfold hmacSha1 in Hm.
        destruct (importKey (b :: key)) as [k | e1]; [|left; eauto].
        right. exists k. cbn [bind] in Hm.
        destruct (sign k (counterBuffer now windowSeconds)) as [sg | e2];
          [discriminate Hm|]. eauto.
  - intros (Hne & Hfail).
    assert (Hm : exists e, hmacSha1 (base32ToBuffer secret)
                             (counterBuffer now windowSeconds) = Throw e).
    { unfold hmacSha1. destruct Hfail as [(e & ->) | (k & e & -> & Hs)].
      - exists e. reflexivity.
      - exists e. cbn [bind]. rewrite Hs. reflexivity. }
    destruct Hm as (e & Hm).
    apply (generateTOTP_hash_failure _ _ _ _ e Hne Hm).
Qed.
